(** * match_filter: reconciliation of a MARCXML collection against an index

    A shallow embedding of [match_filter.py].  Python strings are modelled
    as [string], one [ascii] per character, a character standing for its
    code point (so the model covers code points below 256).  The parsed
    document is a tree of [node]s, the file system a finite map from path
    names to file contents, and the exceptions the script can raise are the
    constructors of [exn]. *)

From Stdlib Require Import Ascii String.
From stdpp Require Import gmap strings list pretty.

Local Set Warnings "-register-all,-clear-no-such-hyp".
Local Open Scope char_scope.

(** ** Characters and strings *)

(** [\d] of [re] on a [str] pattern: the decimal digits.  Below code point
    256 these are exactly [0-9]. *)
Definition is_digit (c : ascii) : bool :=
  match c with
  | "0" | "1" | "2" | "3" | "4" | "5" | "6" | "7" | "8" | "9" => true
  | _ => false
  end.

(** [\s] of [re] and the characters removed by [str.strip()]: the
    characters for which [str.isspace] holds, below code point 256. *)
Definition is_space (c : ascii) : bool :=
  match c with
  | "009" | "010" | "011" | "012" | "013"
  | "028" | "029" | "030" | "031" | " " | "133" | "160" => true
  | _ => false
  end.

(** [[A-Z]] *)
Definition is_upper (c : ascii) : bool :=
  let n := nat_of_ascii c in (65 <=? n)%nat && (n <=? 90)%nat.

Local Close Scope char_scope.

Fixpoint lstrip (s : string) : string :=
  match s with
  | String c s' => if is_space c then lstrip s' else s
  | EmptyString => EmptyString
  end.

(** [s.rstrip(chars)]: the characters of the set [P] removed at the end *)
Fixpoint rstrip_chars (P : ascii → bool) (s : string) : string :=
  match s with
  | String c s' =>
      match rstrip_chars P s' with
      | EmptyString => if P c then EmptyString else String c EmptyString
      | r => String c r
      end
  | EmptyString => EmptyString
  end.

Definition rstrip : string → string := rstrip_chars is_space.

(** [s.strip()] *)
Definition strip (s : string) : string := rstrip (lstrip s).

Fixpoint all_chars (P : ascii → bool) (s : string) : bool :=
  match s with
  | String c s' => P c && all_chars P s'
  | EmptyString => true
  end.

(** ** Identifier extractor

    [re.search("[\s_]?(\d{8,16}X?)(_v\d)?", fname)].  A match object is
    kept as its two groups. *)

Record re_match := ReMatch { group1 : string; group2 : option string }.

(** The longest run of at most [n] digits at the head of [s], and what
    follows it: the greedy [\d{..,n}]. *)
Fixpoint digits_upto (n : nat) (s : string) : string * string :=
  match n, s with
  | S n', String c s' =>
      if is_digit c
      then let '(d, r) := digits_upto n' s' in (String c d, r)
      else (EmptyString, s)
  | _, _ => (EmptyString, s)
  end.

(** [X?]: the letter is taken when it is there. *)
Definition opt_X (s : string) : string * string :=
  match s with
  | String "X"%char r => ("X", r)
  | _ => ("", s)
  end.

(** [(_v\d)?] *)
Definition opt_version (s : string) : option string * string :=
  match s with
  | String "_"%char (String "v"%char (String c r)) =>
      if is_digit c
      then (Some (String "_"%char (String "v"%char (String c EmptyString))), r)
      else (None, s)
  | _ => (None, s)
  end.

(** [(\d{8,16}X?)(_v\d)?] at the head of [s].  The two optional parts
    that follow the digits never fail, so the first (longest) choice of
    the greedy [\d{8,16}] is the one that is kept, and the match fails
    exactly when fewer than eight digits are there. *)
Definition match_groups (s : string) : option re_match :=
  let '(d, r) := digits_upto 16 s in
  if (8 <=? String.length d)%nat then
    let '(x, r') := opt_X r in
    Some (ReMatch (d +:+ x) (fst (opt_version r')))
  else None.

Definition is_sep (c : ascii) : bool :=
  is_space c || bool_decide (c = "_"%char).

(** The whole pattern at the head of [s]: [[\s_]?] first takes the
    separator, and gives it back when the rest does not match. *)
Definition match_here (s : string) : option re_match :=
  match s with
  | String c s' =>
      if is_sep c
      then match match_groups s' with
           | Some m => Some m
           | None => match_groups s
           end
      else match_groups s
  | EmptyString => match_groups s
  end.

(** [re.search]: the match at the leftmost position that has one. *)
Fixpoint re_search (s : string) : option re_match :=
  match match_here s with
  | Some m => Some m
  | None =>
      match s with
      | String _ s' => re_search s'
      | EmptyString => None
      end
  end.

(** [[m.group(1) for fname in discoverable for m in [re.search(..)] if m]] *)
Definition discover_scns (discoverable : list string) : list string :=
  omap (λ fname, group1 <$> re_search fname) discoverable.

(** [plaintext_to_index] and [filenames_to_index], given what they read
    from [source]: the lines of the text file ([ptf.read().splitlines()])
    and the names [glob.glob(directory + "/*.epub")] returns. *)
Definition plaintext_to_index (lines : list string) : list string :=
  discover_scns lines.

Definition filenames_to_index (epubs : list string) : list string :=
  discover_scns epubs.

(** ** Matcher

    [scn_collection] is a list of one-entry dicts [{record: tag.text}]: an
    ordered list of (key, identifier text) pairs, duplicates kept. *)

Abbreviation scn_collection := (list (string * string)).

(** The keys appended to [matching_record_ids] by the double loop. *)
Definition matching_record_ids (index : list string) (coll : scn_collection)
    : list string :=
  fst <$> filter (λ kv, strip (snd kv) ∈ index) coll.

(** [list(dict.fromkeys(l))]: the first occurrence of each element, in order. *)
Fixpoint dict_fromkeys (l : list string) : list string :=
  match l with
  | [] => []
  | x :: l' => x :: filter (λ y, y ≠ x) (dict_fromkeys l')
  end.

Definition matching_whitelist_uniq (index : list string) (coll : scn_collection)
    : list string :=
  dict_fromkeys (matching_record_ids index coll).

(** [[str( *d.keys()) for d in scn_collection]] *)
Definition collection_keys (coll : scn_collection) : list string := fst <$> coll.

(** The two sets are [gset]s; [list(..)] of a Python set enumerates it in
    an order the language leaves open, here the order of [elements]. *)
Definition diff_index_records (index : list string) (coll : scn_collection)
    : list string :=
  elements ((list_to_set (collection_keys coll) : gset string)
            ∖ list_to_set (matching_whitelist_uniq index coll)).

(** ** The parsed document

    The tree [BeautifulSoup] builds.  A [Tag] has a name (with its
    namespace prefix, as the xml builder names it), an attribute dict and
    its [contents]; the other nodes are strings.  [Comment] and
    [ProcessingInstruction] are strings that [.text] leaves out.  The
    document itself is a [Tag] (the [BeautifulSoup] object), whose contents
    are the top-level nodes. *)

Inductive node :=
| Tag (name : string) (attrs : gmap string string) (contents : list node)
| NavigableString (s : string)
| Comment (s : string)
| ProcessingInstruction (s : string).

Definition BeautifulSoup (top : list node) : node := Tag "[document]" ∅ top.

Definition contents (n : node) : list node :=
  match n with Tag _ _ cs => cs | _ => [] end.

Definition attrs (n : node) : gmap string string :=
  match n with Tag _ a _ => a | _ => ∅ end.

(** A descendant of a node, as the searches see it: where it is (the
    child indices from the node searched), its [.parent], and the element. *)
Record element := Element { path : list nat; parent : node; elem : node }.

Definition below (i : nat) (e : element) : element :=
  Element (i :: path e) (parent e) (elem e).

(** [.descendants]: every node below [n], in document order. *)
Fixpoint descendants (n : node) : list element :=
  match n with
  | Tag _ _ cs =>
      (fix go (i : nat) (l : list node) : list element :=
         match l with
         | [] => []
         | c :: l' =>
             Element [i] n c :: (below i <$> descendants c) ++ go (S i) l'
         end) 0%nat cs
  | _ => []
  end.

(** [.text]: the strings below the node, joined; comments and processing
    instructions are not part of it. *)
Fixpoint text (n : node) : string :=
  match n with
  | Tag _ _ cs =>
      (fix go (l : list node) : string :=
         match l with
         | [] => ""
         | c :: l' => text c +:+ go l'
         end) cs
  | NavigableString s => s
  | Comment _ | ProcessingInstruction _ => ""
  end.

(** [.string]: the single string of a tag with exactly one child, looked
    for through single-child tags; [None] otherwise. *)
Fixpoint string_of (n : node) : option string :=
  match n with
  | Tag _ _ [c] => string_of c
  | Tag _ _ _ => None
  | NavigableString s | Comment s | ProcessingInstruction s => Some s
  end.

(** What a search accepts: a tag of the given name, carrying the given
    attribute values, and (when [string=] is given and is not the empty
    string, which the search ignores as it ignores [None]) whose [.string]
    is that string. *)
Definition matches (name : string) (want : list (string * string))
    (str : option string) (n : node) : bool :=
  match n with
  | Tag nm a _ =>
      bool_decide (nm = name)
      && forallb (λ kv, bool_decide (a !! fst kv = Some (snd kv))) want
      && match str with
         | None | Some EmptyString => true
         | Some u => bool_decide (string_of n = Some u)
         end
  | _ => false
  end.

Definition find_all (name : string) (n : node) : list element :=
  filter (λ e, matches name [] None (elem e) = true) (descendants n).

Definition find (name : string) (want : list (string * string))
    (str : option string) (n : node) : option element :=
  head (filter (λ e, matches name want str (elem e) = true) (descendants n)).

(** ** Exceptions *)

Inductive exn := AttributeError | KeyError.

Inductive result (A : Type) :=
| Ok (a : A)
| Raise (e : exn).
Arguments Ok {A} a.
Arguments Raise {A} e.

Global Instance result_bind : MBind result := λ A B k r,
  match r with
  | Ok a => k a
  | Raise e => Raise e
  end.

Global Instance result_fmap : FMap result := λ A B f r,
  match r with
  | Ok a => Ok (f a)
  | Raise e => Raise e
  end.

(** [d[key]] on a dict *)
Definition getitem (d : gmap string string) (key : string) : result string :=
  match d !! key with
  | Some v => Ok v
  | None => Raise KeyError
  end.

(** An attribute of the result of [find]: of [None] it is an
    [AttributeError]. *)
Definition deref {A} (o : option A) : result A :=
  match o with
  | Some a => Ok a
  | None => Raise AttributeError
  end.

(** ** Record parser *)

Record parsed := Parsed {
  p_len : nat;
  p_collection : scn_collection;
  p_soup : node
}.

(** [check_extra[1].extract()] when [len(check_extra) > 1] *)
Definition extract_extra (soup : node) : node :=
  match soup with
  | Tag nm a cs => if (1 <? length cs)%nat then Tag nm a (delete 1%nat cs) else soup
  | _ => soup
  end.

(** One turn of the loop over [tag_collection]: the entry the tag adds to
    [scn_collection], if it adds one. *)
Definition scn_entry (tag : element) : result (option (string * string)) :=
  t ← getitem (attrs (elem tag)) "tag";
  if bool_decide (t = "028") then
    sub ← deref (find "marc:subfield" [] None (elem tag));
    code ← getitem (attrs (elem sub)) "code";
    if bool_decide (code = "a") then
      cf ← deref (find "marc:controlfield" [("tag", "001")] None (parent tag));
      Ok (Some (text (elem cf), text (elem tag)))
    else Ok None
  else Ok None.

Fixpoint scn_entries (tags : list element) : result scn_collection :=
  match tags with
  | [] => Ok []
  | tag :: tags' =>
      o ← scn_entry tag;
      rest ← scn_entries tags';
      Ok (option_list o ++ rest)
  end.

Definition parse_marcxml (marcxml_soup : node) : result parsed :=
  let soup := extract_extra marcxml_soup in
  let tag_collection := find_all "marc:datafield" soup in
  let record_length := length (find_all "marc:record" soup) in
  coll ← scn_entries tag_collection;
  Ok (Parsed record_length coll soup).

(** ** Path names: [os.path] on POSIX *)

Definition is_slash (c : ascii) : bool := bool_decide (c = "/"%char).

(** [(p[:i], p[i:])] for [i = p.rfind('/') + 1] *)
Fixpoint rsplit_slash (p : string) : string * string :=
  match p with
  | String c p' =>
      let '(h, t) := rsplit_slash p' in
      match h with
      | String _ _ => (String c h, t)
      | EmptyString => if is_slash c then (String c "", t) else ("", String c t)
      end
  | EmptyString => ("", "")
  end.

(** [os.path.split]: the head loses its trailing slashes unless it is
    made of slashes only. *)
Definition os_path_split (p : string) : string * string :=
  let '(head, tail) := rsplit_slash p in
  (if bool_decide (head ≠ "") && negb (all_chars is_slash head)
   then rstrip_chars is_slash head else head, tail).

Definition os_path_dirname (p : string) : string := fst (os_path_split p).

(** ** The world the script acts on: the files and what [click.echo] printed *)

Record world := World { files : gmap string string; console : list string }.

Definition echo (msg : string) (w : world) : world :=
  World (files w) (console w ++ [msg]).

(** A file opened for writing and written: [files] maps path names to
    contents, and opening and writing are taken to succeed. *)
Definition write_file (name data : string) (w : world) : world :=
  World (<[name := data]> (files w)) (console w).

Definition dquote : string := String "034"%char "".
Definition newline : string := String "010"%char "".

(** [name="value"] as it stands in the header *)
Definition xml_attr (name value : string) : string :=
  name +:+ "=" +:+ dquote +:+ value +:+ dquote.

Definition collection_header : string :=
  "<?xml " +:+ xml_attr "version" "1.0" +:+ " " +:+ xml_attr "encoding" "UTF-8"
  +:+ " ?><marc:collection "
  +:+ xml_attr "xmlns:marc" "http://www.loc.gov/MARC21/slim" +:+ " "
  +:+ xml_attr "xmlns:xsi" "http://www.w3.org/2001/XMLSchema-instance" +:+ " "
  +:+ xml_attr "xsi:schemaLocation"
        "http://www.loc.gov/MARC21/slim http://www.loc.gov/standards/marcxml/schema/MARC21slim.xsd"
  +:+ ">".

Definition collection_footer : string := "</marc:collection>".

Fixpoint concat_strings (l : list string) : string :=
  match l with
  | [] => ""
  | s :: l' => s +:+ concat_strings l'
  end.

(** [re.sub('[\n]{2}', '', s)]: each pair of line feeds met from the left
    is dropped. *)
Fixpoint scrub_double_newlines (s : string) : string :=
  match s with
  | String c r =>
      match r with
      | String c' r' =>
          if bool_decide (c = "010"%char) && bool_decide (c' = "010"%char)
          then scrub_double_newlines r'
          else String c (scrub_double_newlines r)
      | EmptyString => s
      end
  | EmptyString => s
  end.

(** [.decompose()] of the element at [p]: it leaves the tree with all it
    owns.  At the empty path it is the document itself that is emptied. *)
Fixpoint remove_at (p : list nat) (n : node) {struct p} : node :=
  match p, n with
  | [i], Tag nm a cs => Tag nm a (delete i cs)
  | i :: p', Tag nm a cs => Tag nm a (alter (remove_at p') i cs)
  | _, _ => n
  end.

Definition decompose (p : list nat) (soup : node) : node :=
  match p, soup with
  | [], Tag nm a _ => Tag nm a []
  | _, _ => remove_at p soup
  end.

(** The name of the file of unmatched records, from the number of
    unmatched ids and [marcxml.name].  [is not ''] is taken as the
    comparison with the empty string that CPython makes of it. *)
Definition unmatched_records_file (count : nat) (name : string) : string :=
  os_path_dirname name +:+ "/"
  +:+ (pretty count +:+ "_unmatchable_"
       +:+ (if bool_decide (os_path_dirname name ≠ "")
            then snd (os_path_split name) else name)).

Definition skip_warning (u : string) : string :=
  "A parent marc:record element was not found for 001: " +:+ u +:+ ". Skipping...".

(** The message of [remove_unmatched], echoed before [.format] is reached. *)
Definition remove_warning : string :=
  "Couldn't remove previously found Record: 001 = {}." +:+ newline
  +:+ "Ensure the MARCXML is well-formed.".

Inductive outcome :=
| Returned
| Exit (code : Z)
| Uncaught (e : exn).

Section Script.

(** [str(r)] of the library, for a record and for the whole document. *)
Variable str : node → string.

(** [os.system]: the exit status of the command and the files it leaves. *)
Variable os_system : string → gmap string string → Z * gmap string string.

(** The first loop of the exporter: the records found, and the warnings
    for the ids whose [find] is [None]. *)
Fixpoint locate_unmatched (ids : list string) (soup : node) (w : world)
    : list node * world :=
  match ids with
  | [] => ([], w)
  | u :: ids' =>
      match find "marc:controlfield" [] (Some u) soup with
      | Some cf =>
          let '(records, w') := locate_unmatched ids' soup w in
          (parent cf :: records, w')
      | None => locate_unmatched ids' soup (echo (skip_warning u) w)
      end
  end.

(** The file has just been written, so [os.path.exists] holds and the
    last message is echoed. *)
Definition save_unmatched_records (unmatched_record_ids : list string)
    (soup : node) (name : string) (w : world) : world :=
  let '(unmatched_records, w1) := locate_unmatched unmatched_record_ids soup w in
  let writeable_unmatched_records := str <$> unmatched_records in
  let unmatched_records_file :=
    unmatched_records_file (length unmatched_record_ids) name in
  let w2 :=
    write_file unmatched_records_file
      (collection_header +:+ concat_strings writeable_unmatched_records
       +:+ collection_footer) w1 in
  echo ("Created " +:+ unmatched_records_file +:+ " in current directory") w2.

Definition create_backup (length : nat) (name : string) (w : world)
    : bool * world :=
  let command := "cp " +:+ name +:+ " " +:+ name +:+ ".backup" in
  let '(status, fs) := os_system command (files w) in
  (bool_decide (status = 0%Z), World fs (console w)).

(** The loop of the mutator.  When [find] is [None] the handler echoes
    its message and then asks [None] (what [click.echo] returned) for
    [.format]: an [AttributeError] raised inside the handler. *)
Fixpoint decompose_unmatched (ids : list string) (soup : node) (w : world)
    : result node * world :=
  match ids with
  | [] => (Ok soup, w)
  | unmatch :: ids' =>
      match find "marc:controlfield" [("tag", "001")] (Some unmatch) soup with
      | Some cf =>
          decompose_unmatched ids' (decompose (removelast (path cf)) soup) w
      | None => (Raise AttributeError, echo remove_warning w)
      end
  end.

Definition remove_unmatched (unmatched_ids : list string) (soup : node)
    (name : string) (w : world) : result bool * world :=
  match decompose_unmatched unmatched_ids soup w with
  | (Ok soup', w') =>
      (Ok true, write_file name (scrub_double_newlines (str soup')) w')
  | (Raise e, w') => (Raise e, w')
  end.

(** [process], given the flag, what [source] holds (the lines of the
    text file or the names in the directory), the name of the MARCXML
    file and the tree the parser built from it.  [is not 0] on the length
    is the comparison with 0 that CPython makes of it; [remove_unmatched]
    returns [True] or raises, and [Ok false] is there for the [if] only. *)
Definition process (text_file : bool) (source : list string) (name : string)
    (marcxml_soup : node) (w : world) : outcome * world :=
  let index :=
    if text_file then plaintext_to_index source else filenames_to_index source in
  match parse_marcxml marcxml_soup with
  | Raise e => (Uncaught e, w)
  | Ok parsed =>
      let unmatched_record_ids := diff_index_records index (p_collection parsed) in
      if bool_decide (length unmatched_record_ids ≠ 0%nat) then
        let w1 :=
          echo ("Found " +:+ pretty (length unmatched_record_ids)
                +:+ " unmatched items to remove") w in
        let w2 := save_unmatched_records unmatched_record_ids (p_soup parsed) name w1 in
        let '(backed_up, w3) := create_backup (p_len parsed) name w2 in
        if backed_up then
          match remove_unmatched unmatched_record_ids (p_soup parsed) name w3 with
          | (Ok true, w4) =>
              (Returned,
               echo ("Filtered out " +:+ pretty (length unmatched_record_ids)
                     +:+ " unmatched records from " +:+ name) w4)
          | (Ok false, w4) => (Returned, w4)
          | (Raise e, w4) => (Uncaught e, w4)
          end
        else (Returned, w3)
      else (Exit 0, echo "No unmatched items found. Exiting." w)
  end.

End Script.

(** ** What the extractor's pattern says, in words

    [identifier_shape]: eight to sixteen digits, then possibly the letter
    [X].  [version_suffix]: [_v] and one digit.  [has_digit_run]: eight
    digits in a row somewhere in the string. *)

Definition identifier_shape (id : string) : Prop :=
  ∃ d x, id = d +:+ x ∧ all_chars is_digit d = true
         ∧ 8 ≤ String.length d ≤ 16 ∧ (x = "" ∨ x = "X").

Definition version_suffix (v : string) : Prop :=
  ∃ c, is_digit c = true ∧ v = String "_"%char (String "v"%char (String c "")).

Definition has_digit_run (s : string) : Prop :=
  ∃ pre d post, s = pre +:+ d +:+ post
                ∧ String.length d = 8 ∧ all_chars is_digit d = true.

(** The pattern as the specification words it, the optional letter being
    any upper-case letter; it differs from [match_groups] in that letter
    only. *)
Module Spec.

Definition opt_upper (s : string) : string * string :=
  match s with
  | String c r => if is_upper c then (String c "", r) else ("", s)
  | EmptyString => ("", s)
  end.

Definition match_groups (s : string) : option re_match :=
  let '(d, r) := digits_upto 16 s in
  if (8 <=? String.length d)%nat then
    let '(x, r') := opt_upper r in
    Some (ReMatch (d +:+ x) (fst (opt_version r')))
  else None.

Definition match_here (s : string) : option re_match :=
  match s with
  | String c s' =>
      if is_sep c
      then match match_groups s' with
           | Some m => Some m
           | None => match_groups s
           end
      else match_groups s
  | EmptyString => match_groups s
  end.

Fixpoint re_search (s : string) : option re_match :=
  match match_here s with
  | Some m => Some m
  | None =>
      match s with
      | String _ s' => re_search s'
      | EmptyString => None
      end
  end.

Definition discover_scns (discoverable : list string) : list string :=
  omap (λ fname, group1 <$> re_search fname) discoverable.

End Spec.

(** ** What the script relies on from the shell

    [cp name name.backup] touches no file but the backup, and when its
    exit status is 0 the backup holds what the source holds. *)
Definition cp_contract
    (os_system : string → gmap string string → Z * gmap string string)
    (name : string) : Prop :=
  ∀ fs,
    let '(status, fs') :=
      os_system ("cp " +:+ name +:+ " " +:+ name +:+ ".backup") fs in
    (∀ p, p ≠ name +:+ ".backup" → fs' !! p = fs !! p)
    ∧ (status = 0%Z → fs' !! (name +:+ ".backup") = fs !! name).

(** ** The file of unmatched records, read again

    The tree of the document [save_unmatched_records] writes: the root
    element of the header, and below it the records that were found, each
    as it stood in the tree it was taken from. *)
Definition collection_attrs : gmap string string :=
  list_to_map
    [("xmlns:marc", "http://www.loc.gov/MARC21/slim");
     ("xmlns:xsi", "http://www.w3.org/2001/XMLSchema-instance");
     ("xsi:schemaLocation",
      "http://www.loc.gov/MARC21/slim http://www.loc.gov/standards/marcxml/schema/MARC21slim.xsd")].

Definition unmatched_soup (unmatched_record_ids : list string) (soup : node)
    : node :=
  BeautifulSoup
    [Tag "marc:collection" collection_attrs
       (fst (locate_unmatched unmatched_record_ids soup (World ∅ [])))].

(** ** MARCXML documents

    The elements of a collection as the parser builds them. *)
Module Marc.

Definition controlfield (tag txt : string) : node :=
  Tag "marc:controlfield" {[ "tag" := tag ]} [NavigableString txt].

Definition subfield (code txt : string) : node :=
  Tag "marc:subfield" {[ "code" := code ]} [NavigableString txt].

Definition datafield (tag : string) (subfields : list node) : node :=
  Tag "marc:datafield" {[ "tag" := tag ]} subfields.

Definition record (fields : list node) : node := Tag "marc:record" ∅ fields.

Definition collection (records : list node) : node :=
  Tag "marc:collection" collection_attrs records.

(** A record given by its control number and its identifiers: the 001
    field, then one 028 field with a subfield [a] per identifier. *)
Definition identifier_field (v : string) : node := datafield "028" [subfield "a" v].

Definition record_of (r : string * list string) : node :=
  record (controlfield "001" (fst r) :: (identifier_field <$> snd r)).

(** The document of a list of such records. *)
Definition document (recs : list (string * list string)) : node :=
  BeautifulSoup [collection (record_of <$> recs)].

(** The entries these records hold, in document order. *)
Definition entries (recs : list (string * list string)) : scn_collection :=
  r ← recs; pair (fst r) <$> snd r.

(** The first record with control number [u]. *)
Definition first_with_key (recs : list (string * list string)) (u : string)
    : option (string * list string) :=
  head (filter (λ r, fst r = u) recs).

End Marc.

(** The children [l] of [par], numbered from [i], each followed by what
    is below it: the list [descendants] builds for a tag. *)
Fixpoint children_from (par : node) (i : nat) (l : list node) : list element :=
  match l with
  | [] => []
  | c :: l' =>
      Element [i] par c :: (below i <$> descendants c)
      ++ children_from par (S i) l'
  end.

(** What the searches of the script look for. *)
Abbreviation is_datafield :=
  (λ e : element, matches "marc:datafield" [] None (elem e) = true).

Abbreviation is_record :=
  (λ e : element, matches "marc:record" [] None (elem e) = true).

Abbreviation is_controlfield_with u :=
  (λ e : element, matches "marc:controlfield" [] (Some u) (elem e) = true).

(** ** Documents and an environment to run the script on *)
Module Demo.

Import Marc.

Definition rec1 : node :=
  record [controlfield "001" "rec1"; datafield "028" [subfield "a" "00000111"]].

Definition rec2 : node :=
  record [controlfield "001" "rec2"; datafield "028" [subfield "a" "00000999"]].

(** a record with no 028 field *)
Definition rec3 : node :=
  record [controlfield "001" "rec3"; datafield "245" [subfield "a" "A title"]].

(** a record whose control number has a comment next to its text *)
Definition rec4 : node :=
  record [Tag "marc:controlfield" {[ "tag" := "001" ]}
            [NavigableString "rec4"; Comment "checked"];
          datafield "028" [subfield "a" "00000444"]].

Definition two_records : node := BeautifulSoup [collection [rec1; rec2]].

Definition one_matched : node := BeautifulSoup [collection [rec1]].

Definition with_bare_record : node := BeautifulSoup [collection [rec1; rec3; rec2]].

Definition with_comment : node := BeautifulSoup [collection [rec1; rec4; rec2]].

(** the root element between a comment and a processing instruction *)
Definition three_top_level : node :=
  BeautifulSoup
    [collection [rec1]; Comment "exported"; ProcessingInstruction "xml-stylesheet"].

Definition two_top_level : node :=
  BeautifulSoup [collection [rec1]; ProcessingInstruction "xml-stylesheet"].

(** a 028 field with no subfield *)
Definition no_subfield : node :=
  BeautifulSoup
    [collection [record [controlfield "001" "rec1"; datafield "028" []]]].

(** a qualifying 028 field in a record with no 001 field *)
Definition no_control_number : node :=
  BeautifulSoup
    [collection [record [controlfield "003" "ORG";
                         datafield "028" [subfield "a" "00000111"]]]].

Definition index_source : list string := ["00000111_v1.epub"; "cover.jpg"].

(** A serializer that writes tags by name and strings as they are. *)
Fixpoint str (n : node) : string :=
  match n with
  | Tag nm _ cs =>
      "<" +:+ nm +:+ ">"
      +:+ (fix go (l : list node) : string :=
             match l with
             | [] => ""
             | c :: l' => str c +:+ go l'
             end) cs
      +:+ "</" +:+ nm +:+ ">"
  | NavigableString s => s
  | Comment _ | ProcessingInstruction _ => ""
  end.

(** A [cp] that copies [name] when the file is there. *)
Definition cp_works (name : string) (command : string)
    (fs : gmap string string) : Z * gmap string string :=
  match fs !! name with
  | Some data => (0%Z, <[name +:+ ".backup" := data]> fs)
  | None => (1%Z, fs)
  end.

(** A [cp] that fails and leaves the files as they are. *)
Definition cp_fails (command : string) (fs : gmap string string)
    : Z * gmap string string := (1%Z, fs).

Definition before : world := World {[ "data/records.xml" := "<collection/>" ]} [].

End Demo.

(** ** Notions the further properties are stated with *)

(** Whether the string begins with a digit. *)
Definition starts_with_digit (s : string) : bool :=
  match s with
  | String c _ => is_digit c
  | EmptyString => false
  end.

(** What the pattern takes from the place where its digits begin, the
    string going on from there as [d +:+ x +:+ v +:+ post]: the digits
    [d], as many as stand there up to sixteen; [x], the letter [X]
    whenever it follows the digits and nothing otherwise; [v], the
    version suffix whenever one follows and nothing otherwise.  Group 1
    is [d +:+ x] and group 2 is [v]. *)
Definition captured (m : re_match) (d x v post : string) : Prop :=
  group1 m = d +:+ x
  ∧ group2 m = (if decide (v = "") then None else Some v)
  ∧ all_chars is_digit d = true
  ∧ 8 ≤ String.length d ≤ 16
  ∧ (String.length d = 16 ∨ starts_with_digit (x +:+ v +:+ post) = false)
  ∧ (x = "X" ∨ x = "" ∧ ∀ r, v +:+ post ≠ "X" +:+ r)
  ∧ (version_suffix v
     ∨ v = "" ∧ ∀ w r, version_suffix w → post ≠ w +:+ r).

(** No eight digits in a row begin in [s] before the place [n]. *)
Definition first_digit_run (n : nat) (s : string) : Prop :=
  ∀ pre d post,
    s = pre +:+ d +:+ post → String.length d = 8 →
    all_chars is_digit d = true → n ≤ String.length pre.
Definition is_line_feed (c : ascii) : bool := bool_decide (c = "010"%char).

(** Whether two line feeds stand side by side somewhere in the string. *)
Fixpoint double_line_feed (s : string) : bool :=
  match s with
  | String c r =>
      match r with
      | String c' _ => (is_line_feed c && is_line_feed c') || double_line_feed r
      | EmptyString => false
      end
  | EmptyString => false
  end.

(** The string without its line feeds. *)
Fixpoint without_line_feeds (s : string) : string :=
  match s with
  | String c r =>
      if is_line_feed c then without_line_feeds r
      else String c (without_line_feeds r)
  | EmptyString => EmptyString
  end.

(** A string with no slash in it. *)
Definition no_slash (s : string) : bool := all_chars (λ c, negb (is_slash c)) s.

Definition is_tag (n : node) : bool :=
  match n with Tag _ _ _ => true | _ => false end.

(** The records without the first one whose control number is [u]. *)
Fixpoint remove_first (u : string) (recs : list (string * list string))
    : list (string * list string) :=
  match recs with
  | [] => []
  | r :: recs' => if decide (fst r = u) then recs' else r :: remove_first u recs'
  end.

Abbreviation is_control_number u :=
  (λ e : element,
     matches "marc:controlfield" [("tag", "001")] (Some u) (elem e) = true).

(** The element [find] returns for the record at place [fst jr], the
    collection being the child [i] of the node searched. *)
Definition found_at (i : nat) (jr : nat * (string * list string)) : element :=
  Element [(i + fst jr)%nat; 0%nat] (Marc.record_of (snd jr))
    (Marc.controlfield "001" (fst (snd jr))).

(** The line boundaries of [str.splitlines], below code point 256. *)
Definition is_line_break (c : ascii) : bool :=
  match c with
  | "010" | "011" | "012" | "013" | "028" | "029" | "030" | "133" => true
  | _ => false
  end%char.

(** [s.splitlines()]: the lines without their ends; a carriage return
    followed by a line feed is one line end, and the end of the string
    after a line end opens no further line. *)
Fixpoint splitlines (s : string) : list string :=
  match s with
  | String c r =>
      if is_line_break c then
        "" :: match r with
              | String c' r' =>
                  if bool_decide (c = "013"%char) && bool_decide (c' = "010"%char)
                  then splitlines r' else splitlines r
              | EmptyString => []
              end
      else
        match splitlines r with
        | [] => [String c ""]
        | line :: lines => String c line :: lines
        end
  | EmptyString => []
  end.

(** The text of the lines, each followed by the line end [eol]. *)
Definition join_lines (eol : string) (lines : list string) : string :=
  concat_strings ((λ line, line +:+ eol) <$> lines).

Definition no_line_break (s : string) : bool :=
  all_chars (λ c, negb (is_line_break c)) s.

Definition carriage_return_line_feed : string :=
  String "013"%char (String "010"%char "").

(** ** Qualifying fields

    The test of line 75 on a datafield: its tag is [028] and the
    subfield [find] returns, the first one, has the code [a]. *)
Definition qualifying (tag : node) : Prop :=
  matches "marc:datafield" [] None tag = true
  ∧ attrs tag !! "tag" = Some "028"
  ∧ ∃ sub, find "marc:subfield" [] None tag = Some sub
           ∧ attrs (elem sub) !! "code" = Some "a".

(** The control number line 76 reads in the parent of a qualifying
    datafield: the text of its first 001 controlfield. *)
Definition control_number (record : node) : option string :=
  text ∘ elem <$> find "marc:controlfield" [("tag", "001")] None record.

(** ** The shell that runs the command of [create_backup]

    [os.system(command)] hands the string to [sh -c].  The name of the
    source stands in the command as it is, without quotes, so the shell
    splits the command into words at the blanks and reads a word with a
    bracket expression as a pattern for the names of the files that exist.
    The model reads the commands [cp source target] whose words are made
    of letters, digits, [.], [_], [/] and bracket expressions over
    letters and digits, each pattern matching at most one name, the
    target not being a directory.  Path names are compared as strings, a
    directory exists when a file of the map is below it, and every file
    can be read and written.  What the model does not read is [None]. *)

Definition is_lower (c : ascii) : bool :=
  let n := nat_of_ascii c in (97 <=? n)%nat && (n <=? 122)%nat.

Definition is_alnum (c : ascii) : bool := is_digit c || is_upper c || is_lower c.

(** The characters that stand for themselves in a word. *)
Definition is_plain (c : ascii) : bool :=
  is_alnum c || bool_decide (c ∈ ["."; "_"; "/"]%char).

(** Field splitting: the words between the blanks. *)
Fixpoint fields (s : string) : list string :=
  match s with
  | EmptyString => [""]
  | String c r =>
      if bool_decide (c = " "%char) then "" :: fields r
      else match fields r with
           | w :: ws => String c w :: ws
           | [] => [String c ""]
           end
  end.

Definition shell_words (s : string) : list string :=
  filter (λ w, w ≠ "") (fields s).

(** A word as a pattern: characters that match themselves and bracket
    expressions that match one of their characters. *)
Inductive glob_item :=
| Lit (c : ascii)
| OneOf (cs : list ascii).

(** [bracket] holds the characters read since an opening bracket. *)
Fixpoint glob_parse (bracket : option (list ascii)) (w : string)
    : option (list glob_item) :=
  match w with
  | EmptyString => match bracket with None => Some [] | Some _ => None end
  | String c r =>
      match bracket with
      | None =>
          if bool_decide (c = "["%char) then glob_parse (Some []) r
          else if is_plain c then cons (Lit c) <$> glob_parse None r
          else None
      | Some cs =>
          if bool_decide (c = "]"%char) then
            match cs with
            | [] => None
            | _ => cons (OneOf cs) <$> glob_parse None r
            end
          else if is_alnum c then glob_parse (Some (cs ++ [c])) r
          else None
      end
  end.

Fixpoint glob_match (p : list glob_item) (s : string) : bool :=
  match p, s with
  | [], EmptyString => true
  | Lit c :: p', String c' s' => bool_decide (c = c') && glob_match p' s'
  | OneOf cs :: p', String c' s' => bool_decide (c' ∈ cs) && glob_match p' s'
  | _, _ => false
  end.

Definition is_lit (i : glob_item) : bool :=
  match i with Lit _ => true | OneOf _ => false end.

(** The directories on the way to the file [p]. *)
Fixpoint directories (p : string) : list string :=
  match p with
  | EmptyString => []
  | String c r =>
      match r with
      | String "/"%char _ => [String c ""]
      | _ => []
      end ++ (String c <$> directories r)
  end.

Definition is_directory (fs : gmap string string) (d : string) : bool :=
  bool_decide (d ∈ (map_to_list fs).*1 ≫= directories).

(** The names that exist: the files and the directories above them. *)
Definition names (fs : gmap string string) : gset string :=
  list_to_set ((map_to_list fs).*1 ++ ((map_to_list fs).*1 ≫= directories)).

(** Pathname expansion of one word: a pattern that matches a name is
    replaced by it; one that matches none stands as it is written. *)
Definition expand (fs : gmap string string) (word : string) : option string :=
  p ← glob_parse None word;
  if forallb is_lit p then Some word
  else match filter (λ n, glob_match p n = true) (elements (names fs)) with
       | [] => Some word
       | [n] => Some n
       | _ => None
       end.

(** [cp source target], the target not being a directory: the exit
    status and the files it leaves. *)
Definition cp (source target : string) (fs : gmap string string)
    : option (Z * gmap string string) :=
  if is_directory fs target then None
  else match fs !! source with
       | None => Some (1%Z, fs)
       | Some data =>
           if bool_decide (source = target) then Some (1%Z, fs)
           else if bool_decide (os_path_dirname target ∈ [""; "/"])
                   || is_directory fs (os_path_dirname target)
           then Some (0%Z, <[target := data]> fs)
           else Some (1%Z, fs)
       end.

Definition sh (command : string) (fs : gmap string string)
    : option (Z * gmap string string) :=
  match shell_words command with
  | [prog; source; target] =>
      if bool_decide (prog = "cp") then
        source' ← expand fs source;
        target' ← expand fs target;
        cp source' target' fs
      else None
  | _ => None
  end.

(** The source [export[1].xml], whose name is a pattern for the name of
    the file [export1.xml] beside it. *)
Definition pattern_name : string := "data/export[1].xml".

Definition beside : world :=
  World {[ pattern_name := "<collection>export[1]</collection>";
           "data/export1.xml" := "<collection>export1</collection>" ]} [].
(** An [os.system] that is the model where the model reads the command. *)
Definition sh_system (command : string) (fs : gmap string string)
    : Z * gmap string string :=
  default (127%Z, fs) (sh command fs).

(** * Properties *)

(** ** Strings *)

Lemma append_cons c s t : String c s +:+ t = String c (s +:+ t).
Proof. reflexivity. Qed.

Lemma append_empty_l s : "" +:+ s = s.
Proof. reflexivity. Qed.

Lemma append_empty_r s : s +:+ "" = s.
Proof. induction s as [|c s IH]; [done|]. by rewrite append_cons, IH. Qed.

Lemma append_assoc s t u : (s +:+ t) +:+ u = s +:+ t +:+ u.
Proof. induction s as [|c s IH]; [done|]. by rewrite !append_cons, IH. Qed.

Lemma length_append s t :
  String.length (s +:+ t) = (String.length s + String.length t)%nat.
Proof. induction s as [|c s IH]; [done|]. rewrite append_cons. simpl. by rewrite IH. Qed.

Lemma all_chars_append P s t :
  all_chars P (s +:+ t) = all_chars P s && all_chars P t.
Proof.
  induction s as [|c s IH]; [done|].
  rewrite append_cons. simpl. rewrite IH. by rewrite andb_assoc.
Qed.

(** ** Matcher *)

Lemma elem_of_dict_fromkeys x l : x ∈ dict_fromkeys l ↔ x ∈ l.
Proof.
  induction l as [|y l IH]; [done|]. simpl.
  rewrite !elem_of_cons, list_elem_of_filter, IH.
  destruct (decide (x = y)); naive_solver.
Qed.

Lemma matching_record_ids_keys index coll k :
  k ∈ matching_record_ids index coll → k ∈ collection_keys coll.
Proof.
  unfold matching_record_ids, collection_keys.
  rewrite !list_elem_of_fmap. intros (kv & -> & Hkv).
  apply list_elem_of_filter in Hkv as [_ Hkv]. eauto.
Qed.

Lemma elem_of_diff_index_records index coll k :
  k ∈ diff_index_records index coll
  ↔ k ∈ collection_keys coll ∧ k ∉ matching_record_ids index coll.
Proof.
  unfold diff_index_records, matching_whitelist_uniq.
  rewrite elem_of_elements, elem_of_difference, !elem_of_list_to_set.
  by rewrite elem_of_dict_fromkeys.
Qed.

Lemma matching_record_ids_nil index coll :
  (∀ kv, kv ∈ coll → strip (snd kv) ∉ index) →
  matching_record_ids index coll = [].
Proof.
  unfold matching_record_ids. induction coll as [|kv coll IH]; intros Hno; [done|].
  rewrite filter_cons. destruct (decide (strip (snd kv) ∈ index)) as [Hin|_].
  - destruct (Hno kv); [by left|done].
  - apply IH. intros kv' Hkv'. apply Hno. by right.
Qed.

(** C1. The matched keys and the unmatched keys returned by
    [diff_index_records] partition the distinct keys of the collection:
    their union is the set of the collection's keys, and no key is in
    both. *)
Theorem diff_index_records_partition (index : list string) (coll : scn_collection) :
  let matched : gset string := list_to_set (matching_whitelist_uniq index coll) in
  let unmatched : gset string := list_to_set (diff_index_records index coll) in
  matched ∪ unmatched = list_to_set (collection_keys coll)
  ∧ matched ∩ unmatched = ∅.
Proof.
  simpl. split.
  - apply set_eq. intros k.
    rewrite elem_of_union, !elem_of_list_to_set, elem_of_diff_index_records.
    unfold matching_whitelist_uniq. rewrite elem_of_dict_fromkeys.
    split.
    + intros [Hm | [Hk _]]; [by eapply matching_record_ids_keys | done].
    + intros Hk. destruct (decide (k ∈ matching_record_ids index coll)); auto.
  - apply set_eq. intros k.
    rewrite elem_of_intersection, !elem_of_list_to_set, elem_of_diff_index_records.
    unfold matching_whitelist_uniq. rewrite elem_of_dict_fromkeys.
    set_solver.
Qed.

(** ** Identifier extractor *)

Lemma digits_upto_spec n s d r :
  digits_upto n s = (d, r) →
  s = d +:+ r ∧ all_chars is_digit d = true ∧ String.length d ≤ n.
Proof.
  revert s d r. induction n as [|n IH]; intros s d r.
  - destruct s; simpl; intros [= <- <-]; rewrite append_empty_l; simpl; auto.
  - destruct s as [|c s]; simpl.
    { intros [= <- <-]. rewrite append_empty_l. simpl. auto with lia. }
    destruct (is_digit c) eqn:Hc.
    2: { intros [= <- <-]. rewrite append_empty_l. simpl. auto with lia. }
    destruct (digits_upto n s) as [d' r'] eqn:Hd. intros [= <- <-].
    destruct (IH _ _ _ Hd) as (-> & Hall & Hlen).
    rewrite append_cons. simpl. rewrite Hc, Hall. repeat split; auto with lia.
Qed.

(** Eight digits at the head of [s] are all taken by the greedy run. *)
Lemma digits_upto_run n d post :
  all_chars is_digit d = true → String.length d ≤ n →
  String.length d ≤ String.length (fst (digits_upto n (d +:+ post))).
Proof.
  revert n. induction d as [|c d IH]; intros n Hd Hn; simpl in *; [lia|].
  apply andb_true_iff in Hd as [Hc Hd].
  destruct n as [|n]; [lia|]. rewrite append_cons. simpl. rewrite Hc.
  specialize (IH n Hd ltac:(lia)).
  destruct (digits_upto n (d +:+ post)) as [d' r']. simpl in *. lia.
Qed.

Lemma opt_X_spec s x r :
  opt_X s = (x, r) → s = x +:+ r ∧ (x = "" ∨ x = "X").
Proof.
  unfold opt_X. destruct s as [|c s]; [intros [= <- <-]; auto|].
  destruct (decide (c = "X"%char)) as [->|Hc].
  - intros [= <- <-]. auto.
  - destruct c as [[] [] [] [] [] [] [] []]; intros [= <- <-]; auto; done.
Qed.

Lemma opt_version_spec s v r :
  opt_version s = (v, r) →
  s = default "" v +:+ r ∧ (v = None ∨ ∃ w, v = Some w ∧ version_suffix w).
Proof.
  unfold opt_version, version_suffix.
  repeat (case_match; simplify_eq/=; try (intros [= <- <-]; by auto)).
  intros [= <- <-]. split; [done|]. right. eauto.
Qed.

Lemma match_groups_spec s m :
  match_groups s = Some m →
  ∃ d rest, s = d +:+ rest ∧ all_chars is_digit d = true
    ∧ 8 ≤ String.length d ≤ 16
    ∧ group1 m = d +:+ fst (opt_X rest)
    ∧ group2 m = fst (opt_version (snd (opt_X rest))).
Proof.
  unfold match_groups.
  destruct (digits_upto 16 s) as [d r] eqn:Hd.
  destruct (digits_upto_spec _ _ _ _ Hd) as (-> & Hall & Hlen).
  destruct (8 <=? String.length d)%nat eqn:H8; [|done].
  apply Nat.leb_le in H8.
  destruct (opt_X r) as [x r'] eqn:Hx. intros [= <-].
  exists d, r. rewrite Hx. simpl. auto.
Qed.

Lemma match_groups_run d post :
  String.length d = 8 → all_chars is_digit d = true →
  is_Some (match_groups (d +:+ post)).
Proof.
  intros Hlen Hd. unfold match_groups.
  pose proof (digits_upto_run 16 d post Hd ltac:(lia)) as Hrun.
  destruct (digits_upto 16 (d +:+ post)) as [d' r']. simpl in Hrun.
  destruct (8 <=? String.length d')%nat eqn:H8.
  - destruct (opt_X r'). eauto.
  - apply Nat.leb_gt in H8. lia.
Qed.

Lemma match_here_spec s m :
  match_here s = Some m →
  ∃ pre d rest, s = pre +:+ d +:+ rest ∧ all_chars is_digit d = true
    ∧ 8 ≤ String.length d ≤ 16
    ∧ group1 m = d +:+ fst (opt_X rest)
    ∧ group2 m = fst (opt_version (snd (opt_X rest))).
Proof.
  assert (Hhere : ∀ t, match_groups t = Some m →
    ∃ pre d rest, t = pre +:+ d +:+ rest ∧ all_chars is_digit d = true
      ∧ 8 ≤ String.length d ≤ 16
      ∧ group1 m = d +:+ fst (opt_X rest)
      ∧ group2 m = fst (opt_version (snd (opt_X rest)))).
  { intros t Ht. apply match_groups_spec in Ht as (d & rest & ?).
    exists "", d, rest. by rewrite append_empty_l. }
  destruct s as [|c s]; simpl; [apply Hhere|].
  destruct (is_sep c); [|apply Hhere].
  destruct (match_groups s) as [m'|] eqn:Hs; [|apply Hhere].
  intros [= ->]. apply match_groups_spec in Hs as (d & rest & -> & ?).
  exists (String c ""), d, rest. by rewrite append_cons, append_empty_l.
Qed.

Lemma re_search_cons c s :
  re_search (String c s)
  = match match_here (String c s) with
    | Some m => Some m
    | None => re_search s
    end.
Proof. reflexivity. Qed.

Lemma re_search_spec s m :
  re_search s = Some m →
  ∃ pre d rest, s = pre +:+ d +:+ rest ∧ all_chars is_digit d = true
    ∧ 8 ≤ String.length d ≤ 16
    ∧ group1 m = d +:+ fst (opt_X rest)
    ∧ group2 m = fst (opt_version (snd (opt_X rest))).
Proof.
  induction s as [|c s IH]; [done|]. rewrite re_search_cons.
  destruct (match_here (String c s)) eqn:Hh.
  - intros [= ->]. by apply match_here_spec.
  - intros (pre & d & rest & -> & ?)%IH.
    exists (String c pre), d, rest. by rewrite append_cons.
Qed.

Lemma match_here_run d post :
  String.length d = 8 → all_chars is_digit d = true →
  is_Some (match_here (d +:+ post)).
Proof.
  intros Hlen Hd. pose proof (match_groups_run d post Hlen Hd) as Hm.
  destruct d as [|c d]; [done|]. rewrite append_cons in *. simpl.
  destruct (is_sep c); [|done]. by destruct (match_groups (d +:+ post)).
Qed.

Lemma re_search_None s : re_search s = None → ¬ has_digit_run s.
Proof.
  induction s as [|c s IH].
  - intros _ (pre & d & post & Hs & Hlen & _).
    destruct pre; [|done]. by destruct d.
  - rewrite re_search_cons.
    destruct (match_here (String c s)) eqn:Hh; [done|].
    intros Hs (pre & d & post & Heq & Hlen & Hd).
    destruct pre as [|c' pre].
    + rewrite append_empty_l in Heq. rewrite Heq in Hh.
      destruct (match_here_run d post Hlen Hd) as [m Hm]. congruence.
    + rewrite append_cons in Heq. injection Heq as -> ->.
      apply (IH Hs). by exists pre, d, post.
Qed.

Lemma identifier_shape_of_match d rest :
  all_chars is_digit d = true → 8 ≤ String.length d ≤ 16 →
  identifier_shape (d +:+ fst (opt_X rest)).
Proof.
  intros Hd Hlen. destruct (opt_X rest) as [x r] eqn:Hx.
  apply opt_X_spec in Hx as [_ Hx]. by exists d, x.
Qed.

Lemma discover_scns_app l1 l2 :
  discover_scns (l1 ++ l2) = discover_scns l1 ++ discover_scns l2.
Proof. unfold discover_scns. apply omap_app. Qed.

Lemma re_search_located s m :
  re_search s = Some m →
  identifier_shape (group1 m)
  ∧ (group2 m = None ∨ ∃ v, group2 m = Some v ∧ version_suffix v)
  ∧ ∃ pre post, s = pre +:+ group1 m +:+ default "" (group2 m) +:+ post.
Proof.
  intros (pre & d & rest & -> & Hd & Hlen & -> & ->)%re_search_spec.
  split; [by apply identifier_shape_of_match|].
  destruct (opt_X rest) as [x r] eqn:Hx.
  destruct (opt_X_spec _ _ _ Hx) as [-> _]. simpl.
  destruct (opt_version r) as [v post] eqn:Hv.
  destruct (opt_version_spec _ _ _ Hv) as [-> Hver]. simpl.
  split; [done|]. exists pre, post. by rewrite !append_assoc.
Qed.

Lemma digit_not_sep c : is_digit c = true → is_sep c = false.
Proof. destruct c as [[] [] [] [] [] [] [] []]; by vm_compute. Qed.

Lemma digits_upto_greedy n s d r :
  digits_upto n s = (d, r) →
  String.length d = n ∨ starts_with_digit r = false.
Proof.
  revert s d r. induction n as [|n IH]; intros s d r.
  - destruct s; simpl; intros [= <- <-]; by left.
  - destruct s as [|c s]; simpl; [intros [= <- <-]; by right|].
    destruct (is_digit c) eqn:Hc; [|intros [= <- <-]; right; simpl; done].
    destruct (digits_upto n s) as [d' r'] eqn:Hd. intros [= <- <-].
    destruct (IH _ _ _ Hd) as [<-|Hr]; [by left|by right].
Qed.

Lemma opt_X_taken s :
  (∃ r, s = String "X"%char r ∧ opt_X s = ("X", r))
  ∨ ((∀ r, s ≠ "X" +:+ r) ∧ opt_X s = ("", s)).
Proof.
  destruct s as [|c s]; [by right|].
  destruct (decide (c = "X"%char)) as [->|Hc]; [left; by eexists|].
  right. split; [intros r [= ? _]; done|].
  by destruct c as [[] [] [] [] [] [] [] []].
Qed.

Lemma opt_version_taken s :
  (∃ v r, s = v +:+ r ∧ version_suffix v ∧ opt_version s = (Some v, r))
  ∨ ((∀ w r, version_suffix w → s ≠ w +:+ r) ∧ opt_version s = (None, s)).
Proof.
  destruct (opt_version s) as [[v|] r] eqn:Hv.
  - left. exists v, r.
    destruct (opt_version_spec _ _ _ Hv) as [-> [[=]|(w & [= <-] & Hw)]]. done.
  - right. assert (r = s) as ->.
    { by destruct (opt_version_spec _ _ _ Hv) as [-> _]. }
    split; [|done]. intros w r (c & Hc & ->) ->. rewrite !append_cons, append_empty_l in Hv.
    unfold opt_version in Hv. by rewrite Hc in Hv.
Qed.

Lemma match_groups_captured s m :
  match_groups s = Some m →
  ∃ d x v post, s = d +:+ x +:+ v +:+ post ∧ captured m d x v post.
Proof.
  unfold match_groups.
  destruct (digits_upto 16 s) as [d r] eqn:Hd.
  destruct (digits_upto_spec _ _ _ _ Hd) as (-> & Hall & Hlen).
  apply digits_upto_greedy in Hd.
  destruct (8 <=? String.length d)%nat eqn:H8; [|done].
  apply Nat.leb_le in H8.
  destruct (opt_X_taken r) as [(r' & -> & Hx)|[Hnx Hx]]; rewrite Hx.
  - destruct (opt_version_taken r') as [(v & post & -> & Hv & Hver)|[Hnv Hver]];
      rewrite Hver; intros [= <-].
    + exists d, "X", v, post. split; [done|]. unfold captured. cbn.
      rewrite decide_False by (destruct Hv as (c & _ & ->); done).
      repeat split; auto with lia.
    + exists d, "X", "", r'. split; [done|]. unfold captured. cbn.
      repeat split; auto with lia.
  - destruct (opt_version_taken r) as [(v & post & -> & Hv & Hver)|[Hnv Hver]];
      rewrite Hver; intros [= <-].
    + exists d, "", v, post. split; [done|]. unfold captured. cbn.
      rewrite decide_False by (destruct Hv as (c & _ & ->); done).
      rewrite append_empty_r. repeat split; auto with lia.
    + exists d, "", "", r. split; [done|]. unfold captured. cbn.
      rewrite append_empty_r. repeat split; auto with lia.
Qed.

Lemma first_digit_run_0 s : first_digit_run 0 s.
Proof. intros pre d post _ _ _. lia. Qed.

Lemma match_here_captured s m :
  match_here s = Some m →
  ∃ pre d x v post,
    s = pre +:+ d +:+ x +:+ v +:+ post ∧ captured m d x v post
    ∧ first_digit_run (String.length pre) s.
Proof.
  assert (Hhere : ∀ t, match_groups t = Some m →
    ∃ pre d x v post,
      t = pre +:+ d +:+ x +:+ v +:+ post ∧ captured m d x v post
      ∧ first_digit_run (String.length pre) t).
  { intros t (d & x & v & post & -> & Hm)%match_groups_captured.
    exists "", d, x, v, post. split; [done|]. split; [done|].
    apply first_digit_run_0. }
  destruct s as [|c s]; [apply Hhere|]. cbn [match_here].
  destruct (is_sep c) eqn:Hc; [|apply Hhere].
  destruct (match_groups s) as [m'|] eqn:Hs; [|apply Hhere].
  intros [= ->]. apply match_groups_captured in Hs as (d & x & v & post & -> & Hm).
  exists (String c ""), d, x, v, post. split; [done|]. split; [done|].
  intros pre d' post' Heq Hlen Hd'. destruct pre as [|c' pre]; [|simpl; lia].
  rewrite append_empty_l in Heq. destruct d' as [|c' d']; [done|].
  rewrite append_cons in Heq. injection Heq as <- _.
  simpl in Hd'. apply andb_true_iff in Hd' as [Hd' _].
  by rewrite (digit_not_sep _ Hd') in Hc.
Qed.

Lemma re_search_captured s m :
  re_search s = Some m →
  ∃ pre d x v post,
    s = pre +:+ d +:+ x +:+ v +:+ post ∧ captured m d x v post
    ∧ first_digit_run (String.length pre) s.
Proof.
  induction s as [|c s IH]; [done|]. rewrite re_search_cons.
  destruct (match_here (String c s)) eqn:Hh.
  - intros [= ->]. by apply match_here_captured.
  - intros (pre & d & x & v & post & -> & Hm & Hfirst)%IH.
    exists (String c pre), d, x, v, post. split; [done|]. split; [done|].
    intros pre' d' post' Heq Hlen Hd'. destruct pre' as [|c' pre'].
    + rewrite append_empty_l in Heq. rewrite Heq in Hh.
      destruct (match_here_run d' post' Hlen Hd') as [m' Hm']. congruence.
    + rewrite append_cons in Heq. injection Heq as <- Heq.
      specialize (Hfirst pre' d' post' Heq Hlen Hd'). simpl. lia.
Qed.

(** C6 (amended). [discover_scns] yields one Identifier per input string
    that matches the pattern, in input order, and nothing for the others.
    The Identifier is read at the first place of the string where eight
    digits stand in a row: it is the digits that stand there, as many as
    there are up to sixteen, followed by the letter [X] whenever an [X]
    comes directly after them (no other letter is taken); the [_v]+digit
    suffix that may follow is matched and left out.  A string yields
    nothing exactly when it holds no eight digits in a row.
    ["9780000012345_v2.epub"] yields ["9780000012345"] and ["cover.jpg"]
    yields nothing. *)
Theorem discover_scns_identifiers :
  (∀ l1 l2, discover_scns (l1 ++ l2) = discover_scns l1 ++ discover_scns l2)
  ∧ (∀ s, match re_search s with
          | Some m =>
              discover_scns [s] = [group1 m]
              ∧ identifier_shape (group1 m)
              ∧ (group2 m = None ∨ ∃ v, group2 m = Some v ∧ version_suffix v)
              ∧ (∃ pre post,
                    s = pre +:+ group1 m +:+ default "" (group2 m) +:+ post)
              ∧ ∃ pre d x v post,
                  s = pre +:+ d +:+ x +:+ v +:+ post
                  ∧ captured m d x v post
                  ∧ first_digit_run (String.length pre) s
          | None => discover_scns [s] = [] ∧ ¬ has_digit_run s
          end)
  ∧ discover_scns ["9780000012345_v2.epub"] = ["9780000012345"]
  ∧ discover_scns ["cover.jpg"] = [].
Proof.
  split; [apply discover_scns_app|]. split; [|by split].
  intros s. destruct (re_search s) as [m|] eqn:Hs.
  - split; [by unfold discover_scns; simpl; rewrite Hs|].
    destruct (re_search_located _ _ Hs) as (? & ? & ?).
    repeat (split; [done|]). by apply re_search_captured.
  - split; [by unfold discover_scns; simpl; rewrite Hs|].
    by apply re_search_None.
Qed.

(** C6, as it is worded, fails: an upper-case letter other than [X] after
    the digits is not part of the Identifier.  The pattern of the claim,
    with any upper-case letter, takes the [A] of ["12345678A.epub"]; the
    pattern of the code does not. *)
Lemma discover_scns_upper_letter :
  discover_scns ["12345678A.epub"] = ["12345678"]
  ∧ Spec.discover_scns ["12345678A.epub"] = ["12345678A"]
  ∧ discover_scns ["12345678A.epub"] ≠ Spec.discover_scns ["12345678A.epub"].
Proof. by repeat split. Qed.

(** ** Record parser *)

Lemma parse_marcxml_soup marcxml_soup p :
  parse_marcxml marcxml_soup = Ok p → p_soup p = extract_extra marcxml_soup.
Proof.
  unfold parse_marcxml.
  destruct (scn_entries _); simpl; [|done]. by intros [= <-].
Qed.

(** C7. When the parse yields more than one top-level node,
    [parse_marcxml] extracts the second top-level node and no other, so
    the nodes after the first are not all discarded: the tree the later
    stages use keeps the first node and those after the second, one node
    fewer than the parser emitted.  It has exactly one top-level node
    only when the parser emitted two; when it emitted more, the last
    top-level node, the one the comment of the code says to extract, is
    still there. *)
Theorem parse_marcxml_top_level (marcxml_soup : node) (p : parsed) :
  parse_marcxml marcxml_soup = Ok p →
  1 < length (contents marcxml_soup) →
  contents (p_soup p)
    = take 1 (contents marcxml_soup) ++ drop 2 (contents marcxml_soup)
  ∧ length (contents (p_soup p)) = length (contents marcxml_soup) - 1
  ∧ (length (contents (p_soup p)) = 1 ↔ length (contents marcxml_soup) = 2)
  ∧ (2 < length (contents marcxml_soup) →
     1 < length (contents (p_soup p))
     ∧ last (contents (p_soup p)) = last (contents marcxml_soup)).
Proof.
  intros Hp Hlen. rewrite (parse_marcxml_soup _ _ Hp).
  destruct marcxml_soup as [nm a cs| | |]; simpl in *; try lia.
  destruct (1 <? length cs)%nat eqn:H1; [|apply Nat.ltb_ge in H1; lia].
  simpl. rewrite delete_take_drop.
  destruct cs as [|c1 [|c2 cs]]; simpl in *; try lia.
  rewrite drop_0. repeat split; intros; try (done || lia).
  destruct cs as [|c3 cs]; simpl in *; [lia|done].
Qed.

Lemma parse_marcxml_top_level_witness :
  parse_marcxml Demo.three_top_level
    = Ok (Parsed 1 [("rec1", "00000111")]
            (BeautifulSoup [Marc.collection [Demo.rec1];
                            ProcessingInstruction "xml-stylesheet"]))
  ∧ 1 < length (contents Demo.three_top_level)
  ∧ 1 < length (contents (BeautifulSoup
                            [Marc.collection [Demo.rec1];
                             ProcessingInstruction "xml-stylesheet"]))
  ∧ last (contents (BeautifulSoup
                      [Marc.collection [Demo.rec1];
                       ProcessingInstruction "xml-stylesheet"]))
    = last (contents Demo.three_top_level).
Proof.
  assert (Hp : parse_marcxml Demo.three_top_level
               = Ok (Parsed 1 [("rec1", "00000111")]
                       (BeautifulSoup [Marc.collection [Demo.rec1];
                                       ProcessingInstruction "xml-stylesheet"])))
    by (vm_compute; reflexivity).
  assert (Hlen : 1 < length (contents Demo.three_top_level)) by (vm_compute; lia).
  split; [exact Hp|]. split; [exact Hlen|].
  destruct (parse_marcxml_top_level _ _ Hp Hlen) as (_ & _ & _ & Hlast).
  apply Hlast. vm_compute. lia.
Defined.

(** With exactly two top-level nodes the second is the last, and one
    node is left. *)
Lemma parse_marcxml_two_top_level :
  parse_marcxml Demo.two_top_level
  = Ok (Parsed 1 [("rec1", "00000111")] Demo.one_matched).
Proof. vm_compute. reflexivity. Qed.

(** Of the three top-level nodes of [three_top_level], the root element,
    a comment and a processing instruction, the comment is taken out and
    the processing instruction is left. *)
Lemma parse_marcxml_three_top_level :
  ∃ p, parse_marcxml Demo.three_top_level = Ok p
       ∧ contents (p_soup p)
         = [Marc.collection [Demo.rec1]; ProcessingInstruction "xml-stylesheet"]
       ∧ length (contents (p_soup p)) ≠ 1.
Proof.
  eexists. split; [vm_compute; reflexivity|]. split; [vm_compute; reflexivity|].
  simpl. lia.
Qed.

(** C10. [parse_marcxml] is not total over well-formed documents: a
    document with a 028 datafield that has no subfield, and a document
    with a qualifying 028 datafield whose record has no 001 controlfield,
    each make it dereference the [None] of [find] and raise an
    [AttributeError]. *)
Theorem parse_marcxml_not_total :
  (∃ soup tag,
      tag ∈ find_all "marc:datafield" soup
      ∧ attrs (elem tag) !! "tag" = Some "028"
      ∧ find "marc:subfield" [] None (elem tag) = None
      ∧ parse_marcxml soup = Raise AttributeError)
  ∧ (∃ soup tag sub,
      tag ∈ find_all "marc:datafield" soup
      ∧ attrs (elem tag) !! "tag" = Some "028"
      ∧ find "marc:subfield" [] None (elem tag) = Some sub
      ∧ attrs (elem sub) !! "code" = Some "a"
      ∧ find "marc:controlfield" [("tag", "001")] None (parent tag) = None
      ∧ parse_marcxml soup = Raise AttributeError).
Proof.
  split.
  - exists Demo.no_subfield.
    destruct (find_all "marc:datafield" Demo.no_subfield) as [|tag tags] eqn:Hf;
      [by vm_compute in Hf|].
    exists tag. split; [by left|].
    vm_compute in Hf. injection Hf as <- <-. by vm_compute.
  - exists Demo.no_control_number.
    destruct (find_all "marc:datafield" Demo.no_control_number)
      as [|tag tags] eqn:Hf; [by vm_compute in Hf|].
    exists tag. vm_compute in Hf. injection Hf as <- <-.
    eexists. split; [by left|]. split; [by vm_compute|].
    split; [vm_compute; reflexivity|]. by vm_compute.
Qed.

Lemma scn_entries_elem tags coll kv :
  scn_entries tags = Ok coll → kv ∈ coll →
  ∃ tag, tag ∈ tags ∧ scn_entry tag = Ok (Some kv).
Proof.
  revert coll. induction tags as [|tag tags IH]; intros coll; simpl.
  - intros [= <-] Hkv. by apply elem_of_nil in Hkv.
  - destruct (scn_entry tag) as [o|] eqn:Ho; simpl; [|done].
    destruct (scn_entries tags) as [rest|] eqn:Hrest; simpl; [|done].
    intros [= <-] [Hkv|Hkv]%elem_of_app.
    + destruct o as [kv'|]; simpl in Hkv; [|by apply elem_of_nil in Hkv].
      apply list_elem_of_singleton in Hkv as ->. exists tag. split; [by left|done].
    + destruct (IH _ eq_refl Hkv) as (tag' & ? & ?). exists tag'. split; [by right|done].
Qed.

(** Every entry of the collection comes from a datafield of the tree
    that qualifies. *)
Lemma parse_marcxml_collection marcxml_soup p kv :
  parse_marcxml marcxml_soup = Ok p → kv ∈ p_collection p →
  ∃ tag, tag ∈ find_all "marc:datafield" (p_soup p)
         ∧ scn_entry tag = Ok (Some kv).
Proof.
  intros Hp. rewrite (parse_marcxml_soup _ _ Hp). revert Hp.
  unfold parse_marcxml.
  destruct (scn_entries _) as [coll|] eqn:Hcoll; simpl; [|done].
  intros [= <-]. simpl. by apply scn_entries_elem.
Qed.


(** ** Running on the file of unmatched records *)


(** ** Path names *)

Lemma to_list_append s t :
  list_ascii_of_string (s +:+ t)
  = list_ascii_of_string s ++ list_ascii_of_string t.
Proof. induction s as [|c s IH]; [done|]. rewrite append_cons. simpl. by rewrite IH. Qed.

Lemma to_list_inj s t :
  list_ascii_of_string s = list_ascii_of_string t → s = t.
Proof.
  intros H. rewrite <- (string_of_list_ascii_of_string s),
    <- (string_of_list_ascii_of_string t). by rewrite H.
Qed.

Lemma append_inv_tail s t u : s +:+ u = t +:+ u → s = t.
Proof.
  intros H. apply to_list_inj. apply (f_equal list_ascii_of_string) in H.
  rewrite !to_list_append in H. by apply (inj (λ l, l ++ _)) in H.
Qed.

(** The head cut by [rsplit_slash] is empty or ends with the slash. *)
Lemma rsplit_slash_spec p h t :
  rsplit_slash p = (h, t) →
  p = h +:+ t ∧ (h = "" ∨ ∃ h', h = h' +:+ "/").
Proof.
  revert h t. induction p as [|c p IH]; intros h t; simpl.
  - intros [= <- <-]. auto.
  - destruct (rsplit_slash p) as [h' t'] eqn:Hp.
    destruct (IH _ _ eq_refl) as [-> Hh'].
    destruct h' as [|c' h'].
    + unfold is_slash. case_bool_decide as Hc.
      * intros [= <- <-]. subst c. split; [done|]. right. by exists "".
      * intros [= <- <-]. auto.
    + intros [= <- <-]. split; [done|]. right.
      destruct Hh' as [|[h'' Hh'']]; [done|]. exists (String c h'').
      by rewrite append_cons, <- Hh''.
Qed.

(** The file of unmatched records is never the MARCXML file itself. *)
Lemma unmatched_records_file_ne count name :
  unmatched_records_file count name ≠ name.
Proof.
  unfold unmatched_records_file, os_path_dirname, os_path_split.
  destruct (rsplit_slash name) as [head tail] eqn:Hsplit.
  destruct (rsplit_slash_spec _ _ _ Hsplit) as [Hname Hhead]. simpl.
  set (dir := if bool_decide (head ≠ "") && negb (all_chars is_slash head)
              then rstrip_chars is_slash head else head).
  case_bool_decide as Hdir.
  - intros Heq. rewrite Hname in Heq.
    rewrite <- !append_assoc in Heq. apply append_inv_tail in Heq.
    destruct Hhead as [->|[h' ->]]; [by destruct dir|].
    apply (f_equal list_ascii_of_string) in Heq.
    rewrite !to_list_append in Heq.
    change (list_ascii_of_string "_unmatchable_")
      with (list_ascii_of_string "_unmatchable" ++ ["_"%char]) in Heq.
    change (list_ascii_of_string "/") with ["/"%char] in Heq.
    rewrite !(assoc (++)) in Heq. by apply app_inj_tail in Heq as [_ [=]].
  - intros Heq. apply (f_equal String.length) in Heq.
    rewrite !length_append in Heq. simpl in Heq. lia.
Qed.

Lemma backup_name_ne name : name ≠ name +:+ ".backup".
Proof.
  intros Heq. apply (f_equal String.length) in Heq.
  rewrite length_append in Heq. simpl in Heq. lia.
Qed.

(** A name with no directory part sends the file to the root directory;
    a name with one keeps the file in that directory. *)
Lemma unmatched_records_file_bare count name :
  os_path_dirname name = "" →
  unmatched_records_file count name
  = "/" +:+ pretty count +:+ "_unmatchable_" +:+ name.
Proof. unfold unmatched_records_file. intros ->. by rewrite append_empty_l. Qed.

Lemma unmatched_records_file_dir count name :
  os_path_dirname name ≠ "" →
  unmatched_records_file count name
  = os_path_dirname name +:+ "/" +:+ pretty count +:+ "_unmatchable_"
    +:+ snd (os_path_split name).
Proof. unfold unmatched_records_file. intros H. by rewrite bool_decide_eq_true_2. Qed.

(** ** The run *)

Lemma process_index (text_file : bool) source :
  (if text_file then plaintext_to_index source else filenames_to_index source)
  = discover_scns source.
Proof. by destruct text_file. Qed.

Lemma locate_unmatched_files ids soup w :
  files (snd (locate_unmatched ids soup w)) = files w.
Proof.
  revert w. induction ids as [|u ids IH]; intros w; simpl; [done|].
  destruct (find _ _ _ soup) as [cf|].
  - specialize (IH w). by destruct (locate_unmatched ids soup w).
  - by rewrite IH.
Qed.

(** The exporter goes on after an id it does not find: it warns and
    takes the next one. *)
Lemma locate_unmatched_not_found u ids soup w :
  find "marc:controlfield" [] (Some u) soup = None →
  locate_unmatched (u :: ids) soup w
  = locate_unmatched ids soup (echo (skip_warning u) w).
Proof. simpl. by intros ->. Qed.

(** The mutator does not: the first id it does not find ends the loop
    with an [AttributeError]. *)
Lemma decompose_unmatched_not_found u ids soup w :
  find "marc:controlfield" [("tag", "001")] (Some u) soup = None →
  decompose_unmatched (u :: ids) soup w
  = (Raise AttributeError, echo remove_warning w).
Proof. simpl. by intros ->. Qed.

Lemma decompose_unmatched_files ids soup w :
  files (snd (decompose_unmatched ids soup w)) = files w.
Proof.
  revert soup. induction ids as [|u ids IH]; intros soup; simpl; [done|].
  by destruct (find _ _ _ soup) as [cf|].
Qed.

Lemma save_unmatched_records_source str ids soup name w :
  files (save_unmatched_records str ids soup name w) !! name = files w !! name.
Proof.
  unfold save_unmatched_records.
  pose proof (locate_unmatched_files ids soup w) as Hfiles.
  destruct (locate_unmatched ids soup w) as [records w1]. simpl in *.
  rewrite lookup_insert_ne by apply unmatched_records_file_ne. by rewrite Hfiles.
Qed.

Lemma remove_unmatched_other str ids soup name w path :
  path ≠ name →
  files (snd (remove_unmatched str ids soup name w)) !! path = files w !! path.
Proof.
  intros Hpath. unfold remove_unmatched.
  pose proof (decompose_unmatched_files ids soup w) as Hfiles.
  destruct (decompose_unmatched ids soup w) as [[soup'|e] w']; simpl in *.
  - rewrite lookup_insert_ne by done. by rewrite Hfiles.
  - by rewrite Hfiles.
Qed.

Lemma cp_works_contract name : cp_contract (Demo.cp_works name) name.
Proof.
  intros fs. unfold Demo.cp_works. destruct (fs !! name) as [data|] eqn:Hname.
  - split; [intros p Hp; by rewrite lookup_insert_ne|].
    intros _. by rewrite lookup_insert_eq.
  - split; [done|]. intros [=].
Qed.

(** C3. When [diff_index_records] returns no unmatched id the run ends
    with [exit(0)] after its message and before any step that produces a
    file: the files are those it started with (no backup, no file of
    unmatched records, the source as it was), and the tree is not
    touched. *)
Theorem process_nothing_unmatched
    (str : node → string)
    (os_system : string → gmap string string → Z * gmap string string)
    (text_file : bool) (source : list string) (name : string)
    (marcxml_soup : node)
    (w : world) (p : parsed) :
  parse_marcxml marcxml_soup = Ok p →
  diff_index_records (discover_scns source) (p_collection p) = [] →
  process str os_system text_file source name marcxml_soup w
    = (Exit 0, echo "No unmatched items found. Exiting." w)
  ∧ files (snd (process str os_system text_file source name marcxml_soup w))
    = files w.
Proof.
  intros Hp Hnone. unfold process. rewrite process_index, Hp, Hnone. done.
Qed.

Lemma process_nothing_unmatched_witness :
  process Demo.str (Demo.cp_works "data/records.xml") false Demo.index_source
    "data/records.xml" Demo.one_matched Demo.before
    = (Exit 0, echo "No unmatched items found. Exiting." Demo.before)
  ∧ files (snd (process Demo.str (Demo.cp_works "data/records.xml") false
                  Demo.index_source "data/records.xml" Demo.one_matched
                  Demo.before))
    = files Demo.before.
Proof.
  apply (process_nothing_unmatched _ _ _ _ _ _ _
           (Parsed 1 [("rec1", "00000111")] Demo.one_matched)).
  - vm_compute. reflexivity.
  - vm_compute. reflexivity.
Defined.

(** With a [cp] that keeps to [cp_contract], a run with unmatched ids
    rewrites the source only when [create_backup] reports success.  When
    it does, the backup holds what the source held before the run, the
    source still holds it, and it is from that state that
    [remove_unmatched] starts; the backup still holds it when the run
    ends.  When it does not, the run returns in the state
    [create_backup] left, [remove_unmatched] is not called and the source
    holds what it held.  Nothing in the script makes the command keep to
    the contract. *)
Lemma process_backup_before_removal
    (str : node → string)
    (os_system : string → gmap string string → Z * gmap string string)
    (text_file : bool) (source : list string) (name : string)
    (marcxml_soup : node)
    (w : world) (p : parsed) :
  cp_contract os_system name →
  parse_marcxml marcxml_soup = Ok p →
  diff_index_records (discover_scns source) (p_collection p) ≠ [] →
  let unmatched := diff_index_records (discover_scns source) (p_collection p) in
  let w1 :=
    echo ("Found " +:+ pretty (length unmatched) +:+ " unmatched items to remove") w in
  let w2 := save_unmatched_records str unmatched (p_soup p) name w1 in
  let snapshot := create_backup os_system (p_len p) name w2 in
  let final := process str os_system text_file source name marcxml_soup w in
  (fst snapshot = true →
     files (snd snapshot) !! (name +:+ ".backup") = files w !! name
     ∧ files (snd snapshot) !! name = files w !! name
     ∧ files (snd final)
       = files (snd (remove_unmatched str unmatched (p_soup p) name (snd snapshot)))
     ∧ files (snd final) !! (name +:+ ".backup") = files w !! name)
  ∧ (fst snapshot = false →
     final = (Returned, snd snapshot)
     ∧ files (snd final) !! name = files w !! name)
  ∧ (files (snd final) !! name ≠ files w !! name → fst snapshot = true).
Proof.
  intros Hcp Hp Hsome unmatched w1 w2 snapshot final.
  assert (Hw2 : files w2 !! name = files w !! name)
    by (unfold w2; by rewrite save_unmatched_records_source).
  assert (Hsnap : (∀ path, path ≠ name +:+ ".backup" →
                     files (snd snapshot) !! path = files w2 !! path)
                  ∧ (fst snapshot = true →
                     files (snd snapshot) !! (name +:+ ".backup") = files w2 !! name)).
  { subst snapshot. unfold create_backup. specialize (Hcp (files w2)).
    destruct (os_system _ (files w2)) as [status fs]. simpl.
    destruct Hcp as [Hframe Hcopy]. split; [done|].
    intros Hok%bool_decide_eq_true. auto. }
  destruct Hsnap as [Hframe Hcopy].
  assert (Hsource : files (snd snapshot) !! name = files w !! name)
    by (rewrite Hframe by apply backup_name_ne; done).
  assert (Hfinal : final
    = if fst snapshot then
        match remove_unmatched str unmatched (p_soup p) name (snd snapshot) with
        | (Ok true, w4) =>
            (Returned,
             echo ("Filtered out " +:+ pretty (length unmatched)
                   +:+ " unmatched records from " +:+ name) w4)
        | (Ok false, w4) => (Returned, w4)
        | (Raise e, w4) => (Uncaught e, w4)
        end
      else (Returned, snd snapshot)).
  { subst final. unfold process. rewrite process_index, Hp. fold unmatched.
    rewrite bool_decide_eq_true_2 by (intros Hlen; by apply Hsome, nil_length_inv).
    fold w1. fold w2. fold snapshot. by destruct snapshot. }
  assert (Hok : fst snapshot = true →
    files (snd final)
    = files (snd (remove_unmatched str unmatched (p_soup p) name (snd snapshot)))).
  { intros Htrue. rewrite Hfinal, Htrue.
    by destruct (remove_unmatched _ _ _ _ _) as [[[|]|e] w4]. }
  assert (Hfail : fst snapshot = false → final = (Returned, snd snapshot))
    by (intros Hfalse; by rewrite Hfinal, Hfalse).
  split; [|split].
  - intros Htrue. rewrite (Hok Htrue), (Hcopy Htrue), Hw2.
    split; [done|]. split; [done|]. split; [done|].
    rewrite remove_unmatched_other by (intros Heq; by apply (backup_name_ne name)).
    by rewrite (Hcopy Htrue).
  - intros Hfalse. rewrite (Hfail Hfalse). done.
  - intros Hchanged. destruct (fst snapshot) eqn:Hs; [done|].
    by rewrite (Hfail eq_refl) in Hchanged.
Qed.

Lemma process_backup_before_removal_witness :
  cp_contract (Demo.cp_works "data/records.xml") "data/records.xml"
  ∧ parse_marcxml Demo.two_records
    = Ok (Parsed 2 [("rec1", "00000111"); ("rec2", "00000999")] Demo.two_records)
  ∧ diff_index_records (discover_scns Demo.index_source)
      [("rec1", "00000111"); ("rec2", "00000999")] ≠ []
  ∧ files (snd (process Demo.str (Demo.cp_works "data/records.xml") false
                  Demo.index_source "data/records.xml" Demo.two_records
                  Demo.before))
      !! "data/records.xml.backup"
    = Some "<collection/>".
Proof.
  assert (Hp : parse_marcxml Demo.two_records
    = Ok (Parsed 2 [("rec1", "00000111"); ("rec2", "00000999")] Demo.two_records))
    by (vm_compute; reflexivity).
  assert (Hsome : diff_index_records (discover_scns Demo.index_source)
      [("rec1", "00000111"); ("rec2", "00000999")] ≠ [])
    by (vm_compute; discriminate).
  split; [apply cp_works_contract|]. split; [exact Hp|]. split; [exact Hsome|].
  destruct (process_backup_before_removal Demo.str
              (Demo.cp_works "data/records.xml") false Demo.index_source
              "data/records.xml" Demo.two_records Demo.before _
              (cp_works_contract "data/records.xml") Hp Hsome)
    as [Hok _].
  destruct Hok as (_ & _ & _ & Hbackup); [vm_compute; reflexivity|].
  exact Hbackup.
Defined.

(** C4. A record that cannot be located is a warning for the exporter
    and an uncaught error for the mutator.  With [rec4], whose control
    number has a comment beside its text, [save_unmatched_records] warns
    and still collects [rec2]; [remove_unmatched] echoes its message and
    raises [AttributeError] out of the handler, so the run ends there:
    the source is not rewritten and [rec2], the remaining key, is not
    removed from it. *)
Theorem remove_unmatched_lookup_failure :
  ∃ p,
    parse_marcxml Demo.with_comment = Ok p
    ∧ diff_index_records (discover_scns Demo.index_source) (p_collection p)
      = ["rec2"; "rec4"]
    ∧ find "marc:controlfield" [] (Some "rec4") (p_soup p) = None
    ∧ find "marc:controlfield" [("tag", "001")] (Some "rec4") (p_soup p) = None
    ∧ locate_unmatched ["rec2"; "rec4"] (p_soup p) Demo.before
      = ([Demo.rec2], echo (skip_warning "rec4") Demo.before)
    ∧ remove_unmatched Demo.str ["rec2"; "rec4"] (p_soup p) "data/records.xml"
        Demo.before
      = (Raise AttributeError, echo remove_warning Demo.before)
    ∧ fst (process Demo.str (Demo.cp_works "data/records.xml") false
             Demo.index_source "data/records.xml" Demo.with_comment Demo.before)
      = Uncaught AttributeError
    ∧ files (snd (process Demo.str (Demo.cp_works "data/records.xml") false
                    Demo.index_source "data/records.xml" Demo.with_comment
                    Demo.before))
        !! "data/records.xml"
      = files Demo.before !! "data/records.xml".
Proof.
  exists (Parsed 3
            [("rec1", "00000111"); ("rec4", "00000444"); ("rec2", "00000999")]
            Demo.with_comment).
  repeat split; vm_compute; reflexivity.
Qed.

(** C8. For a name with a directory the file of unmatched records is
    [<dir>/<count>_unmatchable_<basename>]; for a bare file name it is
    [/<count>_unmatchable_<name>], in the root directory and not beside
    the source, while the message says it is in the current directory. *)
Theorem unmatched_records_file_bare_name :
  unmatched_records_file 1 "data/records.xml" = "data/1_unmatchable_records.xml"
  ∧ os_path_dirname "records.xml" = ""
  ∧ unmatched_records_file 1 "records.xml" = "/1_unmatchable_records.xml"
  ∧ os_path_dirname (unmatched_records_file 1 "records.xml") = "/"
  ∧ is_Some
      (files (save_unmatched_records Demo.str ["rec2"] Demo.two_records
                "records.xml" (World {[ "records.xml" := "<collection/>" ]} []))
         !! "/1_unmatchable_records.xml")
  ∧ console (save_unmatched_records Demo.str ["rec2"] Demo.two_records
               "records.xml" (World {[ "records.xml" := "<collection/>" ]} []))
    = ["Created /1_unmatchable_records.xml in current directory"].
Proof.
  repeat split; try (vm_compute; reflexivity).
  vm_compute. eauto.
Qed.

(** ** Well-formed documents *)

Lemma children_from_fix par l i :
  (fix go (i : nat) (l : list node) : list element :=
     match l with
     | [] => []
     | c :: l' => Element [i] par c :: (below i <$> descendants c) ++ go (S i) l'
     end) i l
  = children_from par i l.
Proof. revert i. induction l as [|c l IH]; intros i; simpl; [done|]. by rewrite IH. Qed.

Lemma descendants_Tag nm a cs :
  descendants (Tag nm a cs) = children_from (Tag nm a cs) 0 cs.
Proof. exact (children_from_fix (Tag nm a cs) cs 0). Qed.

(** Searches look at the element only, not at where it stands. *)
Lemma filter_below (P : node → bool) i (l : list element) :
  filter (λ e, P (elem e) = true) (below i <$> l)
  = below i <$> filter (λ e, P (elem e) = true) l.
Proof.
  induction l as [|e l IH]; [done|]. rewrite fmap_cons, !filter_cons. simpl.
  destruct (decide (P (elem e) = true)); by rewrite IH.
Qed.

Lemma scn_entry_below i e : scn_entry (below i e) = scn_entry e.
Proof. done. Qed.

Lemma scn_entries_below i (l : list element) : scn_entries (below i <$> l) = scn_entries l.
Proof.
  induction l as [|e l IH]; [done|]. rewrite fmap_cons.
  change (scn_entries (below i e :: (below i <$> l)))
    with (o ← scn_entry e; rest ← scn_entries (below i <$> l);
          Ok (option_list o ++ rest)).
  by rewrite IH.
Qed.

Lemma scn_entries_app l1 l2 :
  scn_entries (l1 ++ l2)
  = coll1 ← scn_entries l1; coll2 ← scn_entries l2; Ok (coll1 ++ coll2).
Proof.
  induction l1 as [|e l1 IH]; simpl.
  - by destruct (scn_entries l2).
  - destruct (scn_entry e) as [o|]; simpl; [|done]. rewrite IH.
    destruct (scn_entries l1) as [c1|]; simpl; [|done].
    destruct (scn_entries l2) as [c2|]; simpl; [|done].
    by rewrite (assoc (++)).
Qed.

Lemma text_identifier_field v : text (Marc.identifier_field v) = v.
Proof.
  change (text (Marc.identifier_field v)) with ((v +:+ "") +:+ "").
  by rewrite !append_empty_r.
Qed.

Lemma text_controlfield tag key : text (Marc.controlfield tag key) = key.
Proof.
  change (text (Marc.controlfield tag key)) with (key +:+ "").
  apply append_empty_r.
Qed.

Lemma scn_entry_identifier_field p par v cf :
  find "marc:controlfield" [("tag", "001")] None par = Some cf →
  scn_entry (Element p par (Marc.identifier_field v))
  = Ok (Some (text (elem cf), v)).
Proof.
  intros Hcf. unfold scn_entry. cbn [elem parent].
  change (getitem (attrs (Marc.identifier_field v)) "tag") with (Ok "028").
  cbn [mbind result_bind].
  change (bool_decide ("028" = "028")) with true. cbn iota.
  change (find "marc:subfield" [] None (Marc.identifier_field v))
    with (Some (Element [0%nat] (Marc.identifier_field v) (Marc.subfield "a" v))).
  cbn [deref mbind result_bind elem].
  change (getitem (attrs (Marc.subfield "a" v)) "code") with (Ok "a").
  cbn [mbind result_bind].
  change (bool_decide ("a" = "a")) with true. cbn iota.
  rewrite Hcf. cbn [deref mbind result_bind]. by rewrite text_identifier_field.
Qed.

Lemma find_all_fields par key ids j cf :
  find "marc:controlfield" [("tag", "001")] None par = Some cf →
  text (elem cf) = key →
  scn_entries (filter is_datafield
                 (children_from par j (Marc.identifier_field <$> ids)))
  = Ok (pair key <$> ids).
Proof.
  intros Hcf Hkey. revert j. induction ids as [|v ids IH]; intros j; [done|].
  rewrite fmap_cons. cbn [children_from].
  rewrite filter_cons_True by done.
  rewrite filter_app.   rewrite (filter_below (matches "marc:datafield" [] None)).
  change (filter _ (descendants (Marc.identifier_field v))) with (@nil element).
  rewrite fmap_nil, app_nil_l.
  change (scn_entries (?e :: ?l))
    with (o ← scn_entry e; rest ← scn_entries l; Ok (option_list o ++ rest)).
  rewrite (scn_entry_identifier_field _ _ _ _ Hcf), Hkey.
  cbn [mbind result_bind]. rewrite IH. done.
Qed.

Lemma filter_children_from (P : node → bool) par i c l :
  filter (λ e, P (elem e) = true) (children_from par i (c :: l))
  = (if P c then [Element [i] par c] else [])
    ++ (below i <$> filter (λ e, P (elem e) = true) (descendants c))
    ++ filter (λ e, P (elem e) = true) (children_from par (S i) l).
Proof.
  cbn [children_from]. rewrite filter_cons, filter_app, filter_below.
  cbn [elem]. destruct (P c); by destruct (decide _).
Qed.

(** In a record the 001 field comes first, so it is the one [find] returns. *)
Lemma find_control_number r :
  find "marc:controlfield" [("tag", "001")] None (Marc.record_of r)
  = Some (Element [0%nat] (Marc.record_of r) (Marc.controlfield "001" (fst r))).
Proof.
  unfold find, Marc.record_of, Marc.record. rewrite descendants_Tag.
  cbn [children_from]. by rewrite filter_cons_True.
Qed.

Lemma record_entries par i r :
  scn_entries (filter is_datafield
                 (Element [i] par (Marc.record_of r)
                  :: (below i <$> descendants (Marc.record_of r))))
  = Ok (pair (fst r) <$> snd r).
Proof.
  rewrite filter_cons_False by (by vm_compute).
  rewrite (filter_below (matches "marc:datafield" [] None)).
  rewrite scn_entries_below.
  pose proof (find_control_number r) as Hcf.
  unfold Marc.record_of, Marc.record in *. rewrite descendants_Tag.
  rewrite (filter_children_from (matches "marc:datafield" [] None)).
  change (matches "marc:datafield" [] None (Marc.controlfield "001" (fst r)))
    with false.
  change (filter _ (descendants (Marc.controlfield "001" (fst r))))
    with (@nil element).
  cbn [fmap list_fmap app].
  apply (find_all_fields _ _ _ _ _ Hcf). apply text_controlfield.
Qed.

Lemma collection_entries par i recs :
  scn_entries (filter is_datafield
                 (children_from par i (Marc.record_of <$> recs)))
  = Ok (Marc.entries recs).
Proof.
  revert i. induction recs as [|r recs IH]; intros i; [done|].
  rewrite fmap_cons. cbn [children_from].
  rewrite app_comm_cons, filter_app, scn_entries_app, record_entries, IH.
  done.
Qed.

Lemma no_record_in_fields par j ids :
  filter is_record (children_from par j (Marc.identifier_field <$> ids)) = [].
Proof.
  revert j. induction ids as [|v ids IH]; intros j; [done|].
  rewrite fmap_cons.
  rewrite (filter_children_from (matches "marc:record" [] None)).
  change (matches "marc:record" [] None (Marc.identifier_field v)) with false.
  change (filter _ (descendants (Marc.identifier_field v))) with (@nil element).
  apply IH.
Qed.

Lemma records_counted par i recs :
  length (filter is_record (children_from par i (Marc.record_of <$> recs)))
  = length recs.
Proof.
  revert i. induction recs as [|r recs IH]; intros i; [done|].
  rewrite fmap_cons.
  rewrite (filter_children_from (matches "marc:record" [] None)).
  change (matches "marc:record" [] None (Marc.record_of r)) with true.
  unfold Marc.record_of at 2, Marc.record. rewrite descendants_Tag.
  rewrite (filter_children_from (matches "marc:record" [] None)).
  change (matches "marc:record" [] None (Marc.controlfield "001" (fst r)))
    with false.
  change (filter _ (descendants (Marc.controlfield "001" (fst r))))
    with (@nil element).
  rewrite no_record_in_fields.
  cbn [fmap list_fmap app length]. f_equal. apply IH.
Qed.

(** The parse of a well-formed document: one entry per identifier, under
    the control number of its record. *)
Lemma parse_marcxml_document recs :
  parse_marcxml (Marc.document recs)
  = Ok (Parsed (length recs) (Marc.entries recs) (Marc.document recs)).
Proof.
  unfold parse_marcxml.
  change (extract_extra (Marc.document recs)) with (Marc.document recs).
  unfold find_all, Marc.document, BeautifulSoup. rewrite descendants_Tag.
  rewrite (filter_children_from (matches "marc:datafield" [] None)),
    (filter_children_from (matches "marc:record" [] None)).
  change (matches "marc:datafield" [] None (Marc.collection _)) with false.
  change (matches "marc:record" [] None (Marc.collection _)) with false.
  cbn [children_from]. rewrite !filter_nil, !app_nil_r, !app_nil_l.
  rewrite scn_entries_below, length_fmap.
  unfold Marc.collection. rewrite descendants_Tag.
  by rewrite collection_entries, records_counted.
Qed.

Lemma matches_control_number u k :
  u ≠ "" →
  matches "marc:controlfield" [] (Some u) (Marc.controlfield "001" k)
  = bool_decide (k = u).
Proof.
  destruct u as [|c u]; [done|]. intros _.
  change (matches "marc:controlfield" [] (Some (String c u))
            (Marc.controlfield "001" k))
    with (bool_decide (Some k = Some (String c u))).
  apply bool_decide_ext. split; [by intros [= ->]|by intros ->].
Qed.

Lemma no_controlfield_in_fields u par j ids :
  filter (is_controlfield_with u)
    (children_from par j (Marc.identifier_field <$> ids)) = [].
Proof.
  revert j. induction ids as [|v ids IH]; intros j; [done|].
  rewrite fmap_cons.
  rewrite (filter_children_from (matches "marc:controlfield" [] (Some u))).
  change (matches "marc:controlfield" [] (Some u) (Marc.identifier_field v))
    with false.
  change (filter _ (descendants (Marc.identifier_field v))) with (@nil element).
  apply IH.
Qed.

Lemma controlfield_in_record u r :
  u ≠ "" →
  filter (is_controlfield_with u) (descendants (Marc.record_of r))
  = if bool_decide (fst r = u)
    then [Element [0%nat] (Marc.record_of r) (Marc.controlfield "001" (fst r))]
    else [].
Proof.
  intros Hu. unfold Marc.record_of, Marc.record. rewrite descendants_Tag.
  rewrite (filter_children_from (matches "marc:controlfield" [] (Some u))).
  rewrite (matches_control_number _ _ Hu).
  change (filter _ (descendants (Marc.controlfield "001" (fst r))))
    with (filter (is_controlfield_with u)
            [Element [0%nat] (Marc.controlfield "001" (fst r))
               (NavigableString (fst r))]).
  rewrite filter_cons_False by (by vm_compute). rewrite filter_nil.
  rewrite no_controlfield_in_fields.
  cbn [fmap list_fmap]. by rewrite !app_nil_r.
Qed.

Lemma head_fmap_parent i (l : list element) :
  parent <$> head (below i <$> l) = parent <$> head l.
Proof. by destruct l. Qed.

Lemma find_by_key_in_records u par i recs :
  u ≠ "" →
  parent <$> head (filter (is_controlfield_with u)
                     (children_from par i (Marc.record_of <$> recs)))
  = Marc.record_of <$> Marc.first_with_key recs u.
Proof.
  intros Hu. revert i. induction recs as [|r recs IH]; intros i; [done|].
  rewrite fmap_cons.
  rewrite (filter_children_from (matches "marc:controlfield" [] (Some u))).
  change (matches "marc:controlfield" [] (Some u) (Marc.record_of r)) with false.
  rewrite (controlfield_in_record _ _ Hu).
  unfold Marc.first_with_key. rewrite filter_cons.
  case_bool_decide as Hr.
  - by rewrite decide_True.
  - rewrite decide_False by done. cbn [fmap list_fmap app]. apply IH.
Qed.

Lemma find_by_key u recs :
  u ≠ "" →
  parent <$> find "marc:controlfield" [] (Some u) (Marc.document recs)
  = Marc.record_of <$> Marc.first_with_key recs u.
Proof.
  intros Hu. unfold find, Marc.document, BeautifulSoup.
  rewrite descendants_Tag.
  rewrite (filter_children_from (matches "marc:controlfield" [] (Some u))).
  change (matches "marc:controlfield" [] (Some u) (Marc.collection _)) with false.
  cbn [children_from]. rewrite filter_nil, app_nil_r, app_nil_l.
  rewrite head_fmap_parent. unfold Marc.collection. rewrite descendants_Tag.
  by apply find_by_key_in_records.
Qed.

(** The records the exporter collects from a well-formed document: for
    each id, the first record with that control number. *)
Lemma locate_unmatched_document ids recs w :
  Forall (λ u, u ≠ "") ids →
  fst (locate_unmatched ids (Marc.document recs) w)
  = Marc.record_of <$> omap (Marc.first_with_key recs) ids.
Proof.
  intros Hids. revert w. induction Hids as [|u ids Hu _ IH]; intros w; [done|].
  cbn [locate_unmatched omap list_omap].
  pose proof (find_by_key u recs Hu) as Hfind.
  destruct (find "marc:controlfield" [] (Some u) (Marc.document recs)) as [cf|];
    destruct (Marc.first_with_key recs u) as [r|]; simplify_eq/=.
  - specialize (IH w).
    destruct (locate_unmatched ids (Marc.document recs) w) as [records w'].
    simpl in *. by rewrite Hfind, IH.
  - apply IH.
Qed.

Lemma unmatched_soup_document ids recs :
  Forall (λ u, u ≠ "") ids →
  unmatched_soup ids (Marc.document recs)
  = Marc.document (omap (Marc.first_with_key recs) ids).
Proof.
  intros Hids. unfold unmatched_soup. by rewrite locate_unmatched_document.
Qed.

Lemma elem_of_matching_record_ids index (coll : scn_collection) k :
  k ∈ matching_record_ids index coll
  ↔ ∃ v, (k, v) ∈ coll ∧ strip v ∈ index.
Proof.
  unfold matching_record_ids. rewrite list_elem_of_fmap. split.
  - intros ([k' v] & -> & [Hin Hkv]%list_elem_of_filter). eauto.
  - intros (v & Hkv & Hin). exists (k, v). split; [done|].
    by apply list_elem_of_filter.
Qed.

Lemma elem_of_collection_keys (coll : scn_collection) k :
  k ∈ collection_keys coll ↔ ∃ v, (k, v) ∈ coll.
Proof.
  unfold collection_keys. rewrite list_elem_of_fmap. split.
  - intros ([k' v] & -> & Hkv). eauto.
  - intros (v & Hkv). by exists (k, v).
Qed.

Lemma diff_index_records_ext index (c1 c2 : scn_collection) :
  (∀ k, k ∈ diff_index_records index c1 ↔ k ∈ diff_index_records index c2) →
  diff_index_records index c1 = diff_index_records index c2.
Proof.
  unfold diff_index_records. intros Hext. f_equal. apply set_eq. intros k.
  specialize (Hext k). by rewrite !elem_of_elements in Hext.
Qed.

Lemma elem_of_entries recs k v :
  (k, v) ∈ Marc.entries recs ↔ ∃ ids, (k, ids) ∈ recs ∧ v ∈ ids.
Proof.
  unfold Marc.entries. rewrite list_elem_of_bind. split.
  - intros ([k' ids] & Hkv & Hr). apply list_elem_of_fmap in Hkv as (v' & [= -> ->] & Hv).
    eauto.
  - intros (ids & Hr & Hv). exists (k, ids). split; [|done].
    apply list_elem_of_fmap. eauto.
Qed.

Lemma first_with_key_Some recs u r :
  Marc.first_with_key recs u = Some r → r ∈ recs ∧ fst r = u.
Proof.
  unfold Marc.first_with_key. intros Hr%head_Some_elem_of.
  apply list_elem_of_filter in Hr. tauto.
Qed.

Lemma first_with_key_unique recs r :
  NoDup (fst <$> recs) → r ∈ recs → Marc.first_with_key recs (fst r) = Some r.
Proof.
  unfold Marc.first_with_key.
  induction recs as [|r' recs IH]; intros Hnodup Hr; [by apply elem_of_nil in Hr|].
  rewrite fmap_cons in Hnodup. apply NoDup_cons in Hnodup as [Hfresh Hnodup].
  rewrite filter_cons. apply elem_of_cons in Hr as [->|Hr].
  - by rewrite decide_True.
  - rewrite decide_False; [by apply IH|].
    intros Heq. apply Hfresh. rewrite Heq. by apply list_elem_of_fmap_2.
Qed.

Lemma rerun_entries index recs :
  NoDup (fst <$> recs) →
  Forall (λ r, fst r ≠ "") recs →
  parse_marcxml
    (unmatched_soup (diff_index_records index (Marc.entries recs))
       (Marc.document recs))
  = Ok (Parsed
          (length (omap (Marc.first_with_key recs)
                     (diff_index_records index (Marc.entries recs))))
          (Marc.entries (omap (Marc.first_with_key recs)
                           (diff_index_records index (Marc.entries recs))))
          (unmatched_soup (diff_index_records index (Marc.entries recs))
             (Marc.document recs)))
  ∧ diff_index_records index
      (Marc.entries (omap (Marc.first_with_key recs)
                       (diff_index_records index (Marc.entries recs))))
    = diff_index_records index (Marc.entries recs).
Proof.
  intros Hnodup Hkeys.
  set (unmatched := diff_index_records index (Marc.entries recs)).
  assert (Hrec : ∀ u, u ∈ unmatched →
            ∃ ids v, (u, ids) ∈ recs ∧ v ∈ ids
                     ∧ Marc.first_with_key recs u = Some (u, ids)).
  { intros u [Hu _]%elem_of_diff_index_records.
    apply elem_of_collection_keys in Hu as [v Hv].
    apply elem_of_entries in Hv as (ids & Hr & Hv). exists ids, v.
    split; [done|]. split; [done|].
    by apply (first_with_key_unique recs (u, ids)). }
  assert (Hids : Forall (λ u, u ≠ "") unmatched).
  { apply Forall_forall. intros u (ids & v & Hr & _)%Hrec.
    by apply (proj1 (Forall_forall _ _) Hkeys (u, ids)). }
  split.
  - by rewrite (unmatched_soup_document _ _ Hids), parse_marcxml_document.
  - apply diff_index_records_ext. intros k. fold unmatched. split.
    + intros [Hk _]%elem_of_diff_index_records.
      apply elem_of_collection_keys in Hk as [v Hv].
      apply elem_of_entries in Hv as (ids & Hr & _).
      apply list_elem_of_omap in Hr as (u & Hu & Hfirst).
      apply first_with_key_Some in Hfirst as [_ <-]. done.
    + intros Hk. destruct (Hrec k Hk) as (ids & v & Hr & Hv & Hfirst).
      apply elem_of_diff_index_records. split.
      * apply elem_of_collection_keys. exists v. apply elem_of_entries.
        exists ids. split; [|done]. apply list_elem_of_omap. eauto.
      * intros (v' & Hv' & Hin)%elem_of_matching_record_ids.
        apply elem_of_diff_index_records in Hk as [_ Hk]. apply Hk.
        apply elem_of_matching_record_ids. exists v'. split; [|done].
        apply elem_of_entries in Hv' as (ids' & Hr' & Hv').
        apply list_elem_of_omap in Hr' as (u & _ & [Hr' _]%first_with_key_Some).
        apply elem_of_entries. eauto.
Qed.


(** X25. On a well-formed document with distinct control numbers, the
    control number of a record with no identifier is not among the
    unmatched ids. *)
Lemma record_without_identifier index recs k :
  NoDup (fst <$> recs) → (k, []) ∈ recs →
  k ∉ diff_index_records index (Marc.entries recs).
Proof.
  intros Hnodup Hk [Hkeys _]%elem_of_diff_index_records.
  apply elem_of_collection_keys in Hkeys as [v Hv].
  apply elem_of_entries in Hv as (ids & Hr & Hv).
  pose proof (first_with_key_unique recs (k, ids) Hnodup Hr) as H1.
  pose proof (first_with_key_unique recs (k, []) Hnodup Hk) as H2.
  simpl in *. rewrite H1 in H2. injection H2 as ->. by apply elem_of_nil in Hv.
Qed.

(** * Further properties *)

(** ** More on the matcher *)

(** X1. The ids [diff_index_records] returns hold no id twice, and an id
    is among them exactly when the collection has an entry under it and
    none of the entries under it has its stripped text in the index (one
    identifier in the index is enough to keep a record). *)
Theorem unmatched_characterised (index : list string) (coll : scn_collection) :
  NoDup (diff_index_records index coll)
  ∧ ∀ k, k ∈ diff_index_records index coll
         ↔ (∃ v, (k, v) ∈ coll) ∧ (∀ v, (k, v) ∈ coll → strip v ∉ index).
Proof.
  split; [apply NoDup_elements|]. intros k.
  rewrite elem_of_diff_index_records, elem_of_collection_keys,
    elem_of_matching_record_ids.
  split; intros [Hk Hno]; (split; [done|]).
  - intros v Hv Hin. apply Hno. eauto.
  - intros (v & Hv & Hin). by apply (Hno v).
Qed.

(** X2. A larger index leaves fewer ids unmatched: an id unmatched
    against an index is unmatched against every index with fewer
    members. *)
Theorem unmatched_shrinks_with_index
    (index index' : list string) (coll : scn_collection) (k : string) :
  (∀ x, x ∈ index → x ∈ index') →
  k ∈ diff_index_records index' coll → k ∈ diff_index_records index coll.
Proof.
  intros Hsub. rewrite !elem_of_diff_index_records, !elem_of_matching_record_ids.
  intros [Hk Hno]. split; [done|]. intros (v & Hv & Hin). apply Hno. eauto.
Qed.

Lemma unmatched_shrinks_with_index_witness :
  "rec2" ∈ diff_index_records ["00000111"]
             [("rec1", "00000111"); ("rec2", "00000999")].
Proof.
  apply (unmatched_shrinks_with_index ["00000111"] ["00000111"; "00000555"]).
  - intros x ->%list_elem_of_singleton. by left.
  - vm_compute. by left.
Defined.

(** X3. An empty collection has no unmatched id, and with an empty index
    every key of the collection is unmatched. *)
Theorem unmatched_edge_cases :
  (∀ index, diff_index_records index [] = [])
  ∧ (∀ (coll : scn_collection) k,
       k ∈ diff_index_records [] coll ↔ k ∈ collection_keys coll).
Proof.
  split; [done|]. intros coll k.
  rewrite elem_of_diff_index_records, elem_of_matching_record_ids.
  split; [tauto|]. intros Hk. split; [done|].
  intros (v & _ & Hin). by apply elem_of_nil in Hin.
Qed.

(** X4. [diff_index_records] looks at the index and at the collection as
    sets: two indexes with the same members and two collections with the
    same entries, in whatever order and however often repeated, give the
    same unmatched ids.  The two lists hold the same ids, each once; the
    order of [list(set)] is left open, so nothing is said of it. *)
Theorem unmatched_set_semantics
    (index index' : list string) (coll coll' : scn_collection) :
  (∀ x, x ∈ index ↔ x ∈ index') →
  (∀ kv, kv ∈ coll ↔ kv ∈ coll') →
  diff_index_records index coll ≡ₚ diff_index_records index' coll'.
Proof.
  intros Hindex Hcoll.
  apply NoDup_Permutation; [apply NoDup_elements..|].
  intros k. rewrite !elem_of_diff_index_records, !elem_of_collection_keys,
    !elem_of_matching_record_ids.
  split; intros [[v Hv] Hno]; (split; [exists v; by apply Hcoll|]);
    intros (v' & Hv' & Hin); apply Hno; exists v';
    (split; [by apply Hcoll|by apply Hindex]).
Qed.

Lemma unmatched_set_semantics_witness :
  diff_index_records ["00000111"; "00000444"]
    [("rec1", "00000111"); ("rec2", "00000999")]
  ≡ₚ diff_index_records ["00000444"; "00000111"; "00000444"]
       [("rec2", "00000999"); ("rec1", "00000111"); ("rec2", "00000999")].
Proof.
  apply unmatched_set_semantics.
  - intros x. rewrite !elem_of_cons. tauto.
  - intros kv. rewrite !elem_of_cons. tauto.
Defined.

Lemma dict_fromkeys_snoc l x :
  dict_fromkeys (l ++ [x])
  = if decide (x ∈ l) then dict_fromkeys l else dict_fromkeys l ++ [x].
Proof.
  induction l as [|y l IH]; [by rewrite decide_False by apply not_elem_of_nil|].
  cbn [app dict_fromkeys]. rewrite IH.
  destruct (decide (x ∈ l)) as [Hl|Hl].
  - by rewrite decide_True by (by right).
  - rewrite filter_app, filter_cons, filter_nil.
    destruct (decide (x ∈ y :: l)) as [[->|?]%elem_of_cons|Hyl]; [|done|].
    + rewrite decide_False by (by intros ?). by rewrite app_nil_r.
    + rewrite decide_True; [done|]. intros ->. apply Hyl. by left.
Qed.

Lemma dict_fromkeys_NoDup l : NoDup (dict_fromkeys l).
Proof.
  induction l as [|x l IH]; [constructor|]. simpl. constructor.
  - rewrite list_elem_of_filter. tauto.
  - by apply NoDup_filter.
Qed.

(** X5. [list(dict.fromkeys(l))] is built as a dict is filled: a key met
    again is left where it first stood and a new key goes to the end; the
    result holds no key twice and holds the members of [l]. *)
Theorem dict_fromkeys_first_occurrences :
  dict_fromkeys [] = []
  ∧ (∀ l x, dict_fromkeys (l ++ [x])
            = if decide (x ∈ l) then dict_fromkeys l else dict_fromkeys l ++ [x])
  ∧ (∀ l, NoDup (dict_fromkeys l))
  ∧ (∀ l x, x ∈ dict_fromkeys l ↔ x ∈ l).
Proof.
  split; [done|]. split; [apply dict_fromkeys_snoc|].
  split; [apply dict_fromkeys_NoDup|]. intros l x. apply elem_of_dict_fromkeys.
Qed.

(** ** Stripping *)

Lemma lstrip_spaces pre s :
  all_chars is_space pre = true → lstrip (pre +:+ s) = lstrip s.
Proof.
  induction pre as [|c pre IH]; [done|]. intros Hpre. rewrite append_cons.
  simpl in *. apply andb_true_iff in Hpre as [-> Hpre]. auto.
Qed.

Lemma rstrip_chars_all P s : all_chars P s = true → rstrip_chars P s = "".
Proof.
  induction s as [|c s IH]; [done|]. simpl.
  intros [Hc Hs]%andb_true_iff. by rewrite (IH Hs), Hc.
Qed.

Lemma rstrip_chars_append P s post :
  all_chars P post = true → rstrip_chars P (s +:+ post) = rstrip_chars P s.
Proof.
  intros Hpost. induction s as [|c s IH].
  - rewrite append_empty_l. by apply rstrip_chars_all.
  - rewrite append_cons. simpl. by rewrite IH.
Qed.

Lemma strip_padding pre v post :
  all_chars is_space pre = true → all_chars is_space post = true →
  strip (pre +:+ v +:+ post) = strip v.
Proof.
  intros Hpre Hpost. unfold strip. rewrite (lstrip_spaces _ _ Hpre).
  induction v as [|c v IH].
  - rewrite append_empty_l.
    assert (Hl : lstrip post = "").
    { clear -Hpost. induction post as [|c post IH]; [done|]. simpl in *.
      apply andb_true_iff in Hpost as [-> Hpost]. auto. }
    by rewrite Hl.
  - rewrite append_cons. simpl. destruct (is_space c); [done|].
    rewrite <- append_cons. by apply rstrip_chars_append.
Qed.

(** X6. White space around the text of an identifier field does not
    change the unmatched ids: the text is stripped before it is looked up
    in the index. *)
Theorem unmatched_ignores_padding
    (index : list string) (coll : scn_collection) (k pre v post : string) :
  all_chars is_space pre = true → all_chars is_space post = true →
  diff_index_records index ((k, pre +:+ v +:+ post) :: coll)
  = diff_index_records index ((k, v) :: coll).
Proof.
  intros Hpre Hpost. apply diff_index_records_ext. intros k'.
  rewrite !elem_of_diff_index_records, !elem_of_collection_keys,
    !elem_of_matching_record_ids.
  assert (Hstrip := strip_padding pre v post Hpre Hpost).
  split; intros [[v' Hv'] Hno]; split.
  - apply elem_of_cons in Hv' as [[= -> ->]|Hv'];
      [exists v; by left|exists v'; by right].
  - intros (v'' & [[= -> ->]|Hv'']%elem_of_cons & Hin); apply Hno.
    + exists (pre +:+ v +:+ post). split; [by left|by rewrite Hstrip].
    + exists v''. split; [by right|done].
  - apply elem_of_cons in Hv' as [[= -> ->]|Hv'];
      [exists (pre +:+ v +:+ post); by left|exists v'; by right].
  - intros (v'' & [[= -> ->]|Hv'']%elem_of_cons & Hin); apply Hno.
    + exists v. split; [by left|by rewrite <- Hstrip].
    + exists v''. split; [by right|done].
Qed.

Lemma unmatched_ignores_padding_witness :
  diff_index_records ["00000111"]
    [("rec1", String "010"%char "  " +:+ "00000111" +:+ " ")]
  = diff_index_records ["00000111"] [("rec1", "00000111")].
Proof. by apply unmatched_ignores_padding. Defined.

(** ** The index the matcher is given *)

Lemma discover_scns_shape source x :
  x ∈ discover_scns source → identifier_shape x.
Proof.
  unfold discover_scns. rewrite list_elem_of_omap.
  intros (s & _ & Hs). destruct (re_search s) as [m|] eqn:Hm; [|done].
  injection Hs as <-. by apply re_search_located in Hm as [? _].
Qed.

(** X7. Against an index drawn by [discover_scns], a record is matched
    only through an identifier text that, stripped, is eight to sixteen
    digits with possibly an [X] after them. *)
Theorem matched_identifiers_have_shape
    (source : list string) (coll : scn_collection) (k : string) :
  k ∈ matching_whitelist_uniq (discover_scns source) coll →
  ∃ v, (k, v) ∈ coll ∧ identifier_shape (strip v).
Proof.
  unfold matching_whitelist_uniq.
  rewrite elem_of_dict_fromkeys, elem_of_matching_record_ids.
  intros (v & Hv & Hin). exists v. split; [done|].
  by apply (discover_scns_shape source).
Qed.

Lemma matched_identifiers_have_shape_witness :
  ∃ v, (("rec1", v) : string * string) ∈ [("rec1", " 00000111 ")]
       ∧ identifier_shape (strip v).
Proof.
  apply (matched_identifiers_have_shape ["00000111_v1.epub"]).
  vm_compute. by left.
Defined.

(** ** More on the identifier extractor *)

Lemma digits_upto_exact n d rest :
  all_chars is_digit d = true → String.length d ≤ n →
  String.length d = n ∨ starts_with_digit rest = false →
  digits_upto n (d +:+ rest) = (d, rest).
Proof.
  revert n. induction d as [|c d IH]; intros n Hd Hlen Hstop.
  - rewrite append_empty_l. destruct n as [|n]; [by destruct rest|].
    destruct Hstop as [[=]|Hstop]. destruct rest as [|c rest]; [done|].
    simpl in *. by rewrite Hstop.
  - simpl in Hd, Hlen. apply andb_true_iff in Hd as [Hc Hd].
    destruct n as [|n]; [lia|]. rewrite append_cons. simpl. rewrite Hc.
    rewrite (IH n); [done|done|lia|]. destruct Hstop as [Hn|Hstop]; [|by right].
    left. simpl in Hn. lia.
Qed.

Lemma match_groups_nondigit c s : is_digit c = false → match_groups (String c s) = None.
Proof. intros Hc. unfold match_groups. simpl. by rewrite Hc. Qed.

Lemma match_groups_here s m : match_groups s = Some m → match_here s = Some m.
Proof.
  destruct s as [|c s]; [done|]. intros Hm. simpl.
  destruct (is_digit c) eqn:Hc.
  - by rewrite (digit_not_sep _ Hc).
  - by rewrite (match_groups_nondigit c s Hc) in Hm.
Qed.

Lemma re_search_here s m : match_groups s = Some m → re_search s = Some m.
Proof.
  intros Hm%match_groups_here. destruct s as [|c s]; [done|].
  by rewrite re_search_cons, Hm.
Qed.

Lemma re_search_nondigit c s : is_digit c = false → re_search (String c s) = re_search s.
Proof.
  intros Hc. rewrite re_search_cons. simpl.
  rewrite (match_groups_nondigit _ _ Hc).
  destruct (is_sep c); [|done].
  destruct (match_groups s) as [m|] eqn:Hm; [|done].
  symmetry. by apply re_search_here.
Qed.

Lemma discover_scns_head (d rest : string) :
  all_chars is_digit d = true →
  8 ≤ String.length d ≤ 16 →
  String.length d = 16 ∨ starts_with_digit rest = false →
  discover_scns [d +:+ rest] = [d +:+ fst (opt_X rest)].
Proof.
  intros Hd Hlen Hstop.
  assert (Hm : match_groups (d +:+ rest)
               = Some (ReMatch (d +:+ fst (opt_X rest))
                         (fst (opt_version (snd (opt_X rest)))))).
  { unfold match_groups. rewrite (digits_upto_exact 16) by (done || lia).
    rewrite (proj2 (Nat.leb_le _ _)) by lia. by destruct (opt_X rest). }
  unfold discover_scns. simpl. by rewrite (re_search_here _ _ Hm).
Qed.

(** X8. A string that begins with eight to sixteen digits, the run
    ending there or being cut at sixteen, yields these digits, with the
    [X] that follows them if there is one, whatever comes after. *)
Theorem discover_scns_at_head (d rest : string) :
  all_chars is_digit d = true →
  8 ≤ String.length d ≤ 16 →
  String.length d = 16 ∨ starts_with_digit rest = false →
  discover_scns [d +:+ rest] = [d +:+ fst (opt_X rest)].
Proof. apply discover_scns_head. Qed.

Lemma discover_scns_at_head_witness :
  discover_scns ["123456789" +:+ "X_v2 (copy 00000001).epub"]
  = ["123456789" +:+ fst (opt_X "X_v2 (copy 00000001).epub")].
Proof. apply discover_scns_at_head; [done|simpl; lia|by right]. Defined.

(** X9. Characters that are not digits, before the string, do not change
    what [discover_scns] yields: the separator of the pattern has no
    part in the result. *)
Theorem discover_scns_skips_non_digits (pre s : string) :
  all_chars (λ c, negb (is_digit c)) pre = true →
  discover_scns [pre +:+ s] = discover_scns [s].
Proof.
  intros Hpre. unfold discover_scns. simpl. f_equal.
  assert (Hs : re_search (pre +:+ s) = re_search s); [|by rewrite Hs].
  induction pre as [|c pre IH]; [done|]. simpl in Hpre.
  apply andb_true_iff in Hpre as [Hc Hpre]. rewrite append_cons.
  rewrite re_search_nondigit by (by destruct (is_digit c)). auto.
Qed.

Lemma discover_scns_skips_non_digits_witness :
  discover_scns ["Vol_ " +:+ "9780000012345.epub"]
  = discover_scns ["9780000012345.epub"].
Proof. by apply discover_scns_skips_non_digits. Defined.

(** X10. A run of fewer than eight digits at the head of the string is
    passed over: the string yields what is found after the run. *)
Theorem discover_scns_skips_short_runs (d rest : string) :
  all_chars is_digit d = true →
  String.length d < 8 →
  starts_with_digit rest = false →
  discover_scns [d +:+ rest] = discover_scns [rest].
Proof.
  intros Hd Hlen Hstop. unfold discover_scns. simpl. f_equal.
  assert (Hs : re_search (d +:+ rest) = re_search rest); [|by rewrite Hs].
  induction d as [|c d IH]; [done|]. simpl in Hd, Hlen.
  assert (Hnone : match_groups (String c d +:+ rest) = None).
  { unfold match_groups.
    rewrite (digits_upto_exact 16 (String c d)) by (simpl; auto with lia).
    by rewrite (proj2 (Nat.leb_gt _ _)) by (simpl; lia). }
  apply andb_true_iff in Hd as [Hc Hd].
  rewrite append_cons, re_search_cons. rewrite <- append_cons.
  assert (Hhere : match_here (String c d +:+ rest) = None).
  { rewrite append_cons in *. simpl. by rewrite (digit_not_sep _ Hc). }
  rewrite Hhere. apply IH; [done|lia].
Qed.

Lemma discover_scns_skips_short_runs_witness :
  discover_scns ["2019" +:+ "-9780000012345.epub"]
  = discover_scns ["-9780000012345.epub"].
Proof. apply discover_scns_skips_short_runs; [done|simpl; lia|done]. Defined.

(** ** The rewritten source *)

(** Induction on a string two characters at a time. *)
Lemma string_pair_ind (P : string → Prop) :
  P "" → (∀ c, P (String c "")) →
  (∀ c c' r, P r → P (String c' r) → P (String c (String c' r))) →
  ∀ s, P s.
Proof.
  intros Hnil Hone Hstep s.
  assert (H : P s ∧ ∀ c, P (String c s)); [|tauto].
  induction s as [|c' r [IH1 IH2]]; [by split|].
  split; [apply IH2|]. intros c. by apply Hstep.
Qed.

Lemma scrub_cons2 c c' r :
  scrub_double_newlines (String c (String c' r))
  = if is_line_feed c && is_line_feed c'
    then scrub_double_newlines r
    else String c (scrub_double_newlines (String c' r)).
Proof. reflexivity. Qed.

Lemma scrub_not_line_feed c r :
  is_line_feed c = false →
  scrub_double_newlines (String c r) = String c (scrub_double_newlines r).
Proof.
  intros Hc. destruct r as [|c' r]; [done|]. rewrite scrub_cons2. by rewrite Hc.
Qed.

Lemma scrub_no_double_line_feed s :
  double_line_feed (scrub_double_newlines s) = false.
Proof.
  induction s as [| |c c' r IH1 IH2] using string_pair_ind; [done..|].
  rewrite scrub_cons2.
  destruct (is_line_feed c) eqn:Hc; [destruct (is_line_feed c') eqn:Hc'|];
    cbn [andb]; [done| |].
  - rewrite (scrub_not_line_feed _ _ Hc') in *.
    change (double_line_feed (String c (String c' ?t)))
      with ((is_line_feed c && is_line_feed c')
            || double_line_feed (String c' t)).
    by rewrite Hc', andb_false_r, IH2.
  - destruct (scrub_double_newlines (String c' r)) as [|c2 t]; [done|].
    change (double_line_feed (String c (String c2 t)))
      with ((is_line_feed c && is_line_feed c2)
            || double_line_feed (String c2 t)).
    by rewrite Hc, IH2.
Qed.

Lemma scrub_fixed s :
  double_line_feed s = false → scrub_double_newlines s = s.
Proof.
  induction s as [| |c c' r IH1 IH2] using string_pair_ind; [done..|].
  cbn [double_line_feed]. intros [Hcc Hr]%orb_false_iff.
  rewrite scrub_cons2, Hcc. by rewrite (IH2 Hr).
Qed.

(** X11. What [re.sub('[\n]{2}', '', ..)] returns holds no two line feeds
    side by side; applying it again changes nothing, and it leaves a
    string as it is exactly when the string holds no such pair. *)
Theorem scrub_double_newlines_leaves_no_pair (s : string) :
  double_line_feed (scrub_double_newlines s) = false
  ∧ scrub_double_newlines (scrub_double_newlines s) = scrub_double_newlines s
  ∧ (scrub_double_newlines s = s ↔ double_line_feed s = false).
Proof.
  split; [apply scrub_no_double_line_feed|].
  split; [apply scrub_fixed, scrub_no_double_line_feed|].
  split; [|apply scrub_fixed].
  intros Hs. rewrite <- Hs. apply scrub_no_double_line_feed.
Qed.

(** X12. The scrub drops line feeds and nothing else: the other
    characters are all kept, in their order, and the result is not longer
    than the string. *)
Theorem scrub_double_newlines_drops_line_feeds_only (s : string) :
  without_line_feeds (scrub_double_newlines s) = without_line_feeds s
  ∧ String.length (scrub_double_newlines s) ≤ String.length s.
Proof.
  induction s as [| |c c' r [IH1 IH1'] [IH2 IH2']] using string_pair_ind;
    [done..|].
  rewrite scrub_cons2.
  change (without_line_feeds (String c (String c' r)))
    with (if is_line_feed c then without_line_feeds (String c' r)
          else String c (without_line_feeds (String c' r))).
  change (without_line_feeds (String c' r))
    with (if is_line_feed c' then without_line_feeds r
          else String c' (without_line_feeds r)) in *.
  change (String.length (String c (String c' r)))
    with (S (S (String.length r))).
  change (String.length (String c' r)) with (S (String.length r)) in *.
  destruct (is_line_feed c) eqn:Hc; [destruct (is_line_feed c') eqn:Hc'|];
    cbn [andb].
  - split; [done|lia].
  - cbn [without_line_feeds String.length]. rewrite Hc. split; [done|lia].
  - cbn [without_line_feeds String.length]. rewrite Hc.
    split; [by f_equal|lia].
Qed.

(** ** More on path names *)

Lemma rsplit_slash_no_slash t : no_slash t = true → rsplit_slash t = ("", t).
Proof.
  induction t as [|c t IH]; [done|]. unfold no_slash. simpl.
  intros [Hc Ht]%andb_true_iff. rewrite (IH Ht).
  by destruct (is_slash c).
Qed.

Lemma rsplit_slash_cons c p :
  rsplit_slash (String c p)
  = let '(h, t) := rsplit_slash p in
    match h with
    | String _ _ => (String c h, t)
    | EmptyString => if is_slash c then (String c "", t) else ("", String c t)
    end.
Proof. reflexivity. Qed.

Lemma rsplit_slash_join h t :
  no_slash t = true → rsplit_slash (h +:+ "/" +:+ t) = (h +:+ "/", t).
Proof.
  intros Ht. induction h as [|c h IH].
  - rewrite !append_empty_l, append_cons, append_empty_l, rsplit_slash_cons.
    by rewrite (rsplit_slash_no_slash _ Ht).
  - rewrite append_cons, rsplit_slash_cons, IH. by destruct h.
Qed.

Lemma rsplit_slash_tail p h t : rsplit_slash p = (h, t) → no_slash t = true.
Proof.
  revert h t. induction p as [|c p IH]; intros h t; simpl; [by intros [= <- <-]|].
  destruct (rsplit_slash p) as [h' t'] eqn:Hp. specialize (IH _ _ eq_refl).
  destruct h'; [|by intros [= <- <-]].
  destruct (is_slash c) eqn:Hc; intros [= <- <-]; [done|].
  unfold no_slash in *. simpl. by rewrite Hc.
Qed.

Lemma no_slash_append s t : no_slash (s +:+ t) = no_slash s && no_slash t.
Proof. apply all_chars_append. Qed.

Lemma pretty_N_go_no_slash x s :
  no_slash s = true → no_slash (pretty_N_go x s) = true.
Proof.
  revert s. induction (N.lt_wf_0 x) as [x _ IH]; intros s Hs.
  destruct (decide (x = 0)%N) as [->|Hx]; [by rewrite pretty_N_go_0|].
  rewrite pretty_N_go_step by lia. apply IH.
  - apply N.div_lt; lia.
  - unfold no_slash in *. simpl. rewrite Hs, andb_true_r.
    unfold pretty_N_char. by repeat case_match.
Qed.

Lemma pretty_no_slash (n : nat) : no_slash (pretty n) = true.
Proof.
  unfold pretty, pretty_nat, pretty, pretty_N.
  case_decide; [done|]. by apply pretty_N_go_no_slash.
Qed.

Lemma os_path_split_join dir base :
  dir ≠ "" → rstrip_chars is_slash dir = dir → no_slash base = true →
  os_path_split (dir +:+ "/" +:+ base) = (dir, base).
Proof.
  intros Hdir Hstrip Hbase. unfold os_path_split.
  rewrite (rsplit_slash_join _ _ Hbase).
  assert (Hnot : all_chars is_slash dir = false).
  { destruct (all_chars is_slash dir) eqn:Hall; [|done].
    rewrite (rstrip_chars_all _ _ Hall) in Hstrip. congruence. }
  rewrite bool_decide_eq_true_2 by (by destruct dir).
  rewrite all_chars_append, Hnot. simpl.
  by rewrite rstrip_chars_append, Hstrip.
Qed.

(** X13. For a source [dir/base] with a directory part, the file of
    unmatched records is [dir/<count>_unmatchable_<base>]: its directory
    is the directory of the source. *)
Theorem unmatched_records_file_beside_source
    (count : nat) (dir base : string) :
  dir ≠ "" → rstrip_chars is_slash dir = dir → no_slash base = true →
  unmatched_records_file count (dir +:+ "/" +:+ base)
  = dir +:+ "/" +:+ pretty count +:+ "_unmatchable_" +:+ base
  ∧ os_path_split (unmatched_records_file count (dir +:+ "/" +:+ base))
    = (dir, pretty count +:+ "_unmatchable_" +:+ base)
  ∧ os_path_dirname (unmatched_records_file count (dir +:+ "/" +:+ base))
    = os_path_dirname (dir +:+ "/" +:+ base).
Proof.
  intros Hdir Hstrip Hbase.
  assert (Hfile : unmatched_records_file count (dir +:+ "/" +:+ base)
                  = dir +:+ "/" +:+ pretty count +:+ "_unmatchable_" +:+ base).
  { unfold unmatched_records_file, os_path_dirname.
    rewrite (os_path_split_join _ _ Hdir Hstrip Hbase). simpl.
    by rewrite bool_decide_eq_true_2. }
  assert (Hsplit : os_path_split (dir +:+ "/" +:+ pretty count
                                  +:+ "_unmatchable_" +:+ base)
                   = (dir, pretty count +:+ "_unmatchable_" +:+ base)).
  { apply os_path_split_join; [done..|].
    rewrite !no_slash_append, pretty_no_slash, Hbase. done. }
  rewrite Hfile. split; [done|]. split; [done|].
  unfold os_path_dirname.
  by rewrite Hsplit, (os_path_split_join _ _ Hdir Hstrip Hbase).
Qed.

Lemma unmatched_records_file_beside_source_witness :
  unmatched_records_file 12 ("/srv/marc/in" +:+ "/" +:+ "records.xml")
  = "/srv/marc/in" +:+ "/" +:+ pretty 12 +:+ "_unmatchable_" +:+ "records.xml"
  ∧ os_path_split
      (unmatched_records_file 12 ("/srv/marc/in" +:+ "/" +:+ "records.xml"))
    = ("/srv/marc/in", pretty 12 +:+ "_unmatchable_" +:+ "records.xml")
  ∧ os_path_dirname
      (unmatched_records_file 12 ("/srv/marc/in" +:+ "/" +:+ "records.xml"))
    = os_path_dirname ("/srv/marc/in" +:+ "/" +:+ "records.xml").
Proof. by apply unmatched_records_file_beside_source. Defined.

Lemma rstrip_slash_nonempty s :
  all_chars is_slash s = false → rstrip_chars is_slash s ≠ "".
Proof.
  induction s as [|c s IH]; [done|]. simpl.
  destruct (rstrip_chars is_slash s) eqn:Hs; [|done].
  destruct (is_slash c); [|done]. simpl. intros Hall. by destruct (IH Hall).
Qed.

Lemma dirname_empty name :
  os_path_dirname name = "" → no_slash name = true.
Proof.
  unfold os_path_dirname, os_path_split.
  destruct (rsplit_slash name) as [head tail] eqn:Hsplit. cbn [fst].
  destruct (rsplit_slash_spec _ _ _ Hsplit) as [-> _].
  pose proof (rsplit_slash_tail _ _ _ Hsplit) as Htail.
  destruct (decide (head = "")) as [->|Hhead]; [done|].
  rewrite bool_decide_eq_true_2 by done.
  destruct (all_chars is_slash head) eqn:Hall; cbn [negb andb]; [done|].
  intros Hempty. by apply rstrip_slash_nonempty in Hall.
Qed.

Lemma unmatched_records_file_ne_backup count name :
  unmatched_records_file count name ≠ name +:+ ".backup".
Proof.
  unfold unmatched_records_file.
  case_bool_decide as Hdir.
  - unfold os_path_dirname, os_path_split in *.
    destruct (rsplit_slash name) as [head tail] eqn:Hsplit. cbn [fst snd] in *.
    destruct (rsplit_slash_spec _ _ _ Hsplit) as [Hname Hhead].
    pose proof (rsplit_slash_tail _ _ _ Hsplit) as Htail.
    destruct Hhead as [->|[h' ->]]; [done|].
    intros Heq.
    apply (f_equal rsplit_slash) in Heq. rewrite Hname in Heq.
    rewrite rsplit_slash_join in Heq
      by (by rewrite !no_slash_append, pretty_no_slash, Htail).
    rewrite !append_assoc in Heq.
    rewrite rsplit_slash_join in Heq by (by rewrite no_slash_append, Htail).
    injection Heq as _ Heq. apply (f_equal String.length) in Heq.
    rewrite !length_append in Heq. simpl in Heq. lia.
  - rewrite Hdir, append_empty_l.
    apply dirname_empty in Hdir. intros Heq.
    destruct name as [|c name]; [done|]. rewrite !append_cons in Heq.
    injection Heq as <- _. done.
Qed.

(** X14. The file of unmatched records, the source and the backup are
    three different path names, whatever the name of the source and the
    count. *)
Theorem three_distinct_files (count : nat) (name : string) :
  unmatched_records_file count name ≠ name
  ∧ unmatched_records_file count name ≠ name +:+ ".backup"
  ∧ name +:+ ".backup" ≠ name.
Proof.
  split; [apply unmatched_records_file_ne|].
  split; [apply unmatched_records_file_ne_backup|].
  intros Heq. by apply (backup_name_ne name).
Qed.

(** ** More on the record parser *)

Lemma scn_entries_outcome tags :
  match scn_entries tags with
  | Ok coll =>
      ∃ os, Forall2 (λ tag o, scn_entry tag = Ok o) tags os
            ∧ coll = os ≫= option_list
  | Raise e =>
      ∃ before tag after,
        tags = before ++ tag :: after
        ∧ Forall (λ t, ∃ o, scn_entry t = Ok o) before
        ∧ scn_entry tag = Raise e
  end.
Proof.
  induction tags as [|tag tags IH]; [by exists []|].
  cbn [scn_entries]. destruct (scn_entry tag) as [o|e] eqn:Ho; cbn.
  - destruct (scn_entries tags) as [coll|e]; cbn.
    + destruct IH as (os & Hos & ->). exists (o :: os). split; [by constructor|done].
    + destruct IH as (before & tag' & after & -> & Hbefore & Hraise).
      exists (tag :: before), tag', after. split; [done|].
      split; [constructor; eauto|done].
  - exists [], tag, tags. by repeat split.
Qed.

(** X15. [parse_marcxml] returns when every datafield of the tree, taken
    in document order, goes through the loop without an error, and its
    collection is then what these turns add, in that order; otherwise it
    raises the error of the first datafield that fails. *)
Theorem parse_marcxml_first_error (marcxml_soup : node) :
  match parse_marcxml marcxml_soup with
  | Ok p =>
      p_soup p = extract_extra marcxml_soup
      ∧ p_len p = length (find_all "marc:record" (extract_extra marcxml_soup))
      ∧ ∃ os,
          Forall2 (λ tag o, scn_entry tag = Ok o)
            (find_all "marc:datafield" (extract_extra marcxml_soup)) os
          ∧ p_collection p = os ≫= option_list
  | Raise e =>
      ∃ before tag after,
        find_all "marc:datafield" (extract_extra marcxml_soup)
        = before ++ tag :: after
        ∧ Forall (λ t, ∃ o, scn_entry t = Ok o) before
        ∧ scn_entry tag = Raise e
  end.
Proof.
  unfold parse_marcxml.
  pose proof (scn_entries_outcome
                (find_all "marc:datafield" (extract_extra marcxml_soup))) as H.
  destruct (scn_entries _) as [coll|e]; cbn; [|done]. by repeat split.
Qed.

(** X16. On a well-formed document (records under the root, each its 001
    field followed by its 028 fields with a subfield [a]) [parse_marcxml]
    does not raise: the collection has one entry per identifier, under
    the control number of its record, in document order, and the record
    count is the number of records. *)
Theorem parse_marcxml_well_formed (recs : list (string * list string)) :
  parse_marcxml (Marc.document recs)
  = Ok (Parsed (length recs) (Marc.entries recs) (Marc.document recs)).
Proof. apply parse_marcxml_document. Qed.

Lemma text_Tag nm a cs : text (Tag nm a cs) = concat_strings (text <$> cs).
Proof.
  change (text (Tag nm a cs))
    with ((fix go (l : list node) : string :=
             match l with
             | [] => ""
             | c :: l' => text c +:+ go l'
             end) cs).
  induction cs as [|c cs IH]; [done|]. cbn [fmap list_fmap concat_strings].
  by rewrite IH.
Qed.

(** X17. Of a 028 datafield only the first subfield decides: the field
    adds an entry when that subfield has code [a], and the text of the
    entry is the text of the whole datafield, the following subfields
    included. *)
Theorem scn_entry_first_subfield
    (p : list nat) (par : node) (cf : element) (code t : string)
    (more : list node) :
  find "marc:controlfield" [("tag", "001")] None par = Some cf →
  scn_entry (Element p par
               (Marc.datafield "028" (Marc.subfield code t :: more)))
  = if bool_decide (code = "a")
    then Ok (Some (text (elem cf), t +:+ concat_strings (text <$> more)))
    else Ok None.
Proof.
  intros Hcf. unfold scn_entry. cbn [elem parent].
  change (getitem (attrs (Marc.datafield "028" _)) "tag") with (Ok "028").
  cbn [mbind result_bind].
  change (bool_decide ("028" = "028")) with true. cbn iota.
  assert (Hsub : find "marc:subfield" [] None
                   (Marc.datafield "028" (Marc.subfield code t :: more))
                 = Some (Element [0%nat]
                           (Marc.datafield "028" (Marc.subfield code t :: more))
                           (Marc.subfield code t))).
  { unfold find, Marc.datafield. rewrite descendants_Tag.
    cbn [children_from]. by rewrite filter_cons_True. }
  rewrite Hsub. cbn [deref mbind result_bind elem].
  assert (Hcode : getitem (attrs (Marc.subfield code t)) "code" = Ok code).
  { unfold getitem, Marc.subfield. cbn [attrs]. by rewrite lookup_singleton_eq. }
  rewrite Hcode. cbn [mbind result_bind].
  case_bool_decide; [|done]. rewrite Hcf. cbn [deref mbind result_bind].
  unfold Marc.datafield. rewrite text_Tag. cbn [fmap list_fmap concat_strings].
  unfold Marc.subfield at 1. rewrite text_Tag. cbn [fmap list_fmap concat_strings text].
  by rewrite append_empty_r.
Qed.

Lemma scn_entry_first_subfield_witness :
  scn_entry
    (Element [0%nat; 0%nat; 1%nat]
       (Marc.record [Marc.controlfield "001" "rec1";
                     Marc.datafield "028"
                       [Marc.subfield "a" "00000111"; Marc.subfield "b" "Label"]])
       (Marc.datafield "028"
          [Marc.subfield "a" "00000111"; Marc.subfield "b" "Label"]))
  = if bool_decide ("a" = "a")
    then Ok (Some
               (text (elem (Element [0%nat]
                              (Marc.record
                                 [Marc.controlfield "001" "rec1";
                                  Marc.datafield "028"
                                    [Marc.subfield "a" "00000111";
                                     Marc.subfield "b" "Label"]])
                              (Marc.controlfield "001" "rec1"))),
                "00000111"
                +:+ concat_strings (text <$> [Marc.subfield "b" "Label"])))
    else Ok None.
Proof. by apply scn_entry_first_subfield. Defined.

(** X18. When the parser yields two top-level nodes and the first is not
    a tag, it is the second, the root element, that [parse_marcxml]
    extracts: no record is left and the run ends with "No unmatched
    items found", whatever the root holds. *)
Theorem process_root_in_second_place
    (str : node → string)
    (os_system : string → gmap string string → Z * gmap string string)
    (text_file : bool) (source : list string) (name : string)
    (first root : node) (w : world) :
  is_tag first = false →
  parse_marcxml (BeautifulSoup [first; root])
    = Ok (Parsed 0 [] (BeautifulSoup [first]))
  ∧ process str os_system text_file source name (BeautifulSoup [first; root]) w
    = (Exit 0, echo "No unmatched items found. Exiting." w).
Proof.
  intros Hfirst.
  assert (Hp : parse_marcxml (BeautifulSoup [first; root])
               = Ok (Parsed 0 [] (BeautifulSoup [first])))
    by (by destruct first).
  split; [done|]. unfold process. by rewrite Hp.
Qed.

Lemma process_root_in_second_place_witness :
  parse_marcxml
    (BeautifulSoup [Comment "exported"; Marc.collection [Demo.rec2]])
    = Ok (Parsed 0 [] (BeautifulSoup [Comment "exported"]))
  ∧ process Demo.str (Demo.cp_works "data/records.xml") false
      Demo.index_source "data/records.xml"
      (BeautifulSoup [Comment "exported"; Marc.collection [Demo.rec2]])
      Demo.before
    = (Exit 0, echo "No unmatched items found. Exiting." Demo.before).
Proof. by apply process_root_in_second_place. Defined.

(** ** More on the exporter *)

Lemma locate_unmatched_spec (ids : list string) (soup : node) (w : world) :
  fst (locate_unmatched ids soup w)
  = omap (λ u, parent <$> find "marc:controlfield" [] (Some u) soup) ids
  ∧ console (snd (locate_unmatched ids soup w))
    = console w
      ++ (skip_warning
          <$> filter (λ u, find "marc:controlfield" [] (Some u) soup = None) ids)
  ∧ files (snd (locate_unmatched ids soup w)) = files w.
Proof.
  split; [|split; [|apply locate_unmatched_files]].
  - revert w. induction ids as [|u ids IH]; intros w; [done|].
    cbn [locate_unmatched omap list_omap].
    destruct (find "marc:controlfield" [] (Some u) soup) as [cf|]; cbn.
    + specialize (IH w). destruct (locate_unmatched ids soup w). cbn in *.
      by rewrite IH.
    + apply IH.
  - revert w. induction ids as [|u ids IH]; intros w;
      [by rewrite filter_nil, fmap_nil, app_nil_r|].
    cbn [locate_unmatched]. rewrite filter_cons.
    destruct (find "marc:controlfield" [] (Some u) soup) as [cf|] eqn:Hcf.
    + rewrite decide_False by done. specialize (IH w).
      by destruct (locate_unmatched ids soup w).
    + rewrite decide_True by done. rewrite IH. cbn.
      by rewrite <- (assoc (++)).
Qed.

(** ** More on the mutator *)

Lemma matches_control_number_001 u k :
  u ≠ "" →
  matches "marc:controlfield" [("tag", "001")] (Some u) (Marc.controlfield "001" k)
  = bool_decide (k = u).
Proof.
  destruct u as [|c u]; [done|]. intros _.
  change (matches "marc:controlfield" [("tag", "001")] (Some (String c u))
            (Marc.controlfield "001" k))
    with (bool_decide (Some k = Some (String c u))).
  apply bool_decide_ext. split; [by intros [= ->]|by intros ->].
Qed.

Lemma no_control_number_in_fields u par j ids :
  filter (is_control_number u)
    (children_from par j (Marc.identifier_field <$> ids)) = [].
Proof.
  revert j. induction ids as [|v ids IH]; intros j; [done|].
  rewrite fmap_cons.
  rewrite (filter_children_from
             (matches "marc:controlfield" [("tag", "001")] (Some u))).
  change (matches "marc:controlfield" _ (Some u) (Marc.identifier_field v))
    with false.
  change (filter _ (descendants (Marc.identifier_field v))) with (@nil element).
  apply IH.
Qed.

Lemma control_number_in_record u r :
  u ≠ "" →
  filter (is_control_number u) (descendants (Marc.record_of r))
  = if bool_decide (fst r = u)
    then [Element [0%nat] (Marc.record_of r) (Marc.controlfield "001" (fst r))]
    else [].
Proof.
  intros Hu. unfold Marc.record_of, Marc.record. rewrite descendants_Tag.
  rewrite (filter_children_from
             (matches "marc:controlfield" [("tag", "001")] (Some u))).
  rewrite (matches_control_number_001 _ _ Hu).
  change (filter _ (descendants (Marc.controlfield "001" (fst r))))
    with (filter (is_control_number u)
            [Element [0%nat] (Marc.controlfield "001" (fst r))
               (NavigableString (fst r))]).
  rewrite filter_cons_False by (by vm_compute). rewrite filter_nil.
  rewrite no_control_number_in_fields.
  cbn [fmap list_fmap]. by rewrite !app_nil_r.
Qed.

Lemma find_control_number_in_records u par i recs :
  u ≠ "" →
  head (filter (is_control_number u)
          (children_from par i (Marc.record_of <$> recs)))
  = found_at i <$> list_find (λ r, fst r = u) recs.
Proof.
  intros Hu. revert i. induction recs as [|r recs IH]; intros i; [done|].
  rewrite fmap_cons.
  rewrite (filter_children_from
             (matches "marc:controlfield" [("tag", "001")] (Some u))).
  change (matches "marc:controlfield" _ (Some u) (Marc.record_of r)) with false.
  rewrite (control_number_in_record _ _ Hu). cbn [list_find].
  case_bool_decide as Hr.
  - rewrite decide_True by done. cbn. unfold found_at. cbn.
    by rewrite Nat.add_0_r.
  - rewrite decide_False by done. cbn [fmap list_fmap app]. rewrite IH.
    destruct (list_find _ recs) as [[j r']|]; [|done]. cbn. unfold found_at. cbn.
    do 3 f_equal. lia.
Qed.

Lemma head_fmap {A B} (f : A → B) (l : list A) : head (f <$> l) = f <$> head l.
Proof. by destruct l. Qed.

Lemma find_control_number_document u recs :
  u ≠ "" →
  find "marc:controlfield" [("tag", "001")] (Some u) (Marc.document recs)
  = below 0 <$> (found_at 0 <$> list_find (λ r, fst r = u) recs).
Proof.
  intros Hu. unfold find, Marc.document, BeautifulSoup.
  rewrite descendants_Tag.
  rewrite (filter_children_from
             (matches "marc:controlfield" [("tag", "001")] (Some u))).
  change (matches "marc:controlfield" _ (Some u) (Marc.collection _)) with false.
  cbn [children_from]. rewrite filter_nil, app_nil_r, app_nil_l.
  rewrite head_fmap. unfold Marc.collection. rewrite descendants_Tag.
  by rewrite find_control_number_in_records.
Qed.

Lemma remove_first_delete u recs j r :
  list_find (λ r, fst r = u) recs = Some (j, r) →
  delete j recs = remove_first u recs.
Proof.
  revert j. induction recs as [|r' recs IH]; intros j; [done|].
  cbn [list_find remove_first]. destruct (decide (fst r' = u)).
  - by intros [= <- <-].
  - destruct (list_find _ recs) as [[j' r'']|]; [|done]. cbn.
    intros [= <- <-]. cbn. f_equal. by apply IH.
Qed.

Lemma decompose_record j recs :
  decompose [0%nat; j] (Marc.document recs) = Marc.document (delete j recs).
Proof.
  unfold Marc.document, BeautifulSoup, Marc.collection. cbn.
  by rewrite list_fmap_delete.
Qed.

Lemma remove_first_keys u v recs :
  v ≠ u → v ∈ fst <$> recs → v ∈ fst <$> remove_first u recs.
Proof.
  intros Hv. induction recs as [|r recs IH]; [done|]. cbn [remove_first].
  rewrite fmap_cons. intros [->|Hin]%elem_of_cons.
  - rewrite decide_False by done. by left.
  - destruct (decide (fst r = u)); [done|]. rewrite fmap_cons. right. auto.
Qed.

Lemma decompose_unmatched_first_records
    (ids : list string) (recs : list (string * list string)) (w : world) :
  Forall (λ u, u ≠ "") ids → NoDup ids →
  (∀ u, u ∈ ids → u ∈ fst <$> recs) →
  decompose_unmatched ids (Marc.document recs) w
  = (Ok (Marc.document (foldl (λ rs u, remove_first u rs) recs ids)), w).
Proof.
  intros Hids. revert recs.
  induction Hids as [|u ids Hu _ IH]; intros recs Hnodup Hkeys; [done|].
  apply NoDup_cons in Hnodup as [Hfresh Hnodup].
  cbn [decompose_unmatched foldl].
  rewrite (find_control_number_document _ _ Hu).
  assert (Hfound : is_Some (list_find (λ r, fst r = u) recs)).
  { assert (Hin : u ∈ fst <$> recs) by (apply Hkeys; by left).
    apply list_elem_of_fmap in Hin as (r & -> & Hr).
    by apply (list_find_elem_of _ _ r). }
  destruct Hfound as [[j r] Hfind]. rewrite Hfind.
  change (found_at 0 <$> Some (j, r))
    with (Some (Element [j; 0%nat] (Marc.record_of r)
                  (Marc.controlfield "001" (fst r)))).
  cbn [fmap option_fmap option_map below path removelast].
  rewrite decompose_record, (remove_first_delete _ _ _ _ Hfind).
  apply IH; [done|]. intros v Hv. apply remove_first_keys.
  - intros ->. done.
  - apply Hkeys. by right.
Qed.

(** X20. On a well-formed document whose records hold the ids, the loop
    of [remove_unmatched] takes out, for each id, the first record with
    that control number, and leaves the other records in their order (a
    later record with the same control number stays). *)
Theorem decompose_unmatched_document
    (ids : list string) (recs : list (string * list string)) (w : world) :
  Forall (λ u, u ≠ "") ids → NoDup ids →
  (∀ u, u ∈ ids → u ∈ fst <$> recs) →
  decompose_unmatched ids (Marc.document recs) w
  = (Ok (Marc.document (foldl (λ rs u, remove_first u rs) recs ids)), w).
Proof. apply decompose_unmatched_first_records. Qed.

Lemma decompose_unmatched_document_witness :
  decompose_unmatched ["rec2"]
    (Marc.document [("rec1", ["00000111"]); ("rec2", ["00000999"]);
                    ("rec2", ["00000998"])])
    Demo.before
  = (Ok (Marc.document
           (foldl (λ rs u, remove_first u rs)
              [("rec1", ["00000111"]); ("rec2", ["00000999"]);
               ("rec2", ["00000998"])]
              ["rec2"])),
     Demo.before).
Proof.
  apply decompose_unmatched_document.
  - by repeat constructor.
  - apply NoDup_singleton.
  - intros u ->%list_elem_of_singleton. cbn. set_solver.
Defined.

Lemma filter_all {A} (P : A → Prop) `{!∀ x, Decision (P x)} (l : list A) :
  Forall P l → filter P l = l.
Proof.
  induction 1 as [|x l Hx _ IH]; [done|]. by rewrite filter_cons_True, IH.
Qed.

Lemma remove_first_unique u recs :
  NoDup (fst <$> recs) →
  remove_first u recs = filter (λ r, fst r ≠ u) recs.
Proof.
  induction recs as [|r recs IH]; [done|]. rewrite fmap_cons.
  intros [Hfresh Hnodup]%NoDup_cons. cbn [remove_first]. rewrite filter_cons.
  destruct (decide (fst r = u)) as [<-|Hr].
  - rewrite decide_False by (by intros ?). symmetry.
    apply filter_all, Forall_forall. intros r' Hr' Heq. apply Hfresh.
    rewrite <- Heq. by apply list_elem_of_fmap_2.
  - rewrite decide_True by done. by rewrite IH.
Qed.

Lemma remove_first_NoDup u recs :
  NoDup (fst <$> recs) → NoDup (fst <$> remove_first u recs).
Proof.
  intros Hnodup. rewrite (remove_first_unique _ _ Hnodup).
  induction recs as [|r recs IH]; [done|]. rewrite fmap_cons in Hnodup.
  apply NoDup_cons in Hnodup as [Hfresh Hnodup]. rewrite filter_cons.
  destruct (decide (fst r ≠ u)); [|by apply IH].
  rewrite fmap_cons. apply NoDup_cons. split; [|by apply IH].
  intros (r' & Heq & [_ Hr']%list_elem_of_filter)%list_elem_of_fmap.
  apply Hfresh. rewrite Heq. by apply list_elem_of_fmap_2.
Qed.

Lemma remove_all_unique ids recs :
  NoDup (fst <$> recs) →
  foldl (λ rs u, remove_first u rs) recs ids
  = filter (λ r, fst r ∉ ids) recs.
Proof.
  revert recs. induction ids as [|u ids IH]; intros recs Hnodup.
  - cbn. symmetry. apply filter_all, Forall_forall. intros r _.
    apply not_elem_of_nil.
  - cbn [foldl]. rewrite IH by (by apply remove_first_NoDup).
    rewrite (remove_first_unique _ _ Hnodup), list_filter_filter.
    apply list_filter_iff. intros r. rewrite not_elem_of_cons. tauto.
Qed.

(** ** More on the run *)

Lemma save_unmatched_records_other str ids soup name w path :
  path ≠ unmatched_records_file (length ids) name →
  files (save_unmatched_records str ids soup name w) !! path = files w !! path.
Proof.
  intros Hpath. unfold save_unmatched_records.
  pose proof (locate_unmatched_files ids soup w) as Hfiles.
  destruct (locate_unmatched ids soup w) as [records w1]. cbn in *.
  rewrite lookup_insert_ne by done. by rewrite Hfiles.
Qed.

Lemma create_backup_other os_system len name w path :
  cp_contract os_system name → path ≠ name +:+ ".backup" →
  files (snd (create_backup os_system len name w)) !! path = files w !! path.
Proof.
  intros Hcp Hpath. unfold create_backup. specialize (Hcp (files w)).
  destruct (os_system _ (files w)) as [status fs]. cbn.
  destruct Hcp as [Hframe _]. by apply Hframe.
Qed.



Lemma first_with_key_is_Some recs u :
  u ∈ fst <$> recs → is_Some (Marc.first_with_key recs u).
Proof.
  intros (r & -> & Hr)%list_elem_of_fmap. unfold Marc.first_with_key.
  destruct (filter (λ r', fst r' = fst r) recs) as [|r' l] eqn:Hf; [|by eexists].
  assert (Hin : r ∈ filter (λ r', fst r' = fst r) recs)
    by (by apply list_elem_of_filter).
  rewrite Hf in Hin. by apply elem_of_nil in Hin.
Qed.

Lemma unmatched_keys_of_records index recs u :
  u ∈ diff_index_records index (Marc.entries recs) → u ∈ fst <$> recs.
Proof.
  intros [Hu _]%elem_of_diff_index_records.
  apply elem_of_collection_keys in Hu as [v Hv].
  apply elem_of_entries in Hv as (ids & Hr & _).
  apply list_elem_of_fmap. by exists (u, ids).
Qed.

Lemma locate_unmatched_all_found ids recs w :
  Forall (λ u, u ≠ "") ids → (∀ u, u ∈ ids → u ∈ fst <$> recs) →
  locate_unmatched ids (Marc.document recs) w
  = (Marc.record_of <$> omap (Marc.first_with_key recs) ids, w).
Proof.
  intros Hids Hkeys.
  pose proof (locate_unmatched_document ids recs w Hids) as Hfst.
  destruct (locate_unmatched_spec ids (Marc.document recs) w)
    as (_ & Hconsole & Hfiles).
  destruct (locate_unmatched ids (Marc.document recs) w) as [records [fs out]].
  cbn in *. rewrite Hfst. f_equal. destruct w as [fs0 out0]. cbn in *.
  f_equal; [done|]. rewrite Hconsole.
  assert (Hnone : filter (λ u, find "marc:controlfield" [] (Some u)
                                 (Marc.document recs) = None) ids = []).
  { clear -Hids Hkeys. induction Hids as [|u ids Hu _ IH]; [done|].
    rewrite filter_cons_False; [apply IH; intros; apply Hkeys; by right|].
    pose proof (find_by_key u recs Hu) as Hfind.
    destruct (first_with_key_is_Some recs u) as [r Hr]; [apply Hkeys; by left|].
    rewrite Hr in Hfind. by destruct (find _ _ _ _). }
  by rewrite Hnone, fmap_nil, app_nil_r.
Qed.

(** X23. On a well-formed document with distinct control numbers, a
    source that exists and a [cp] that succeeds, a run with unmatched ids
    returns; the source then holds the scrubbed text of the document
    without the unmatched records, the backup holds what the source
    held, the file of unmatched records holds the header, these records
    and the footer, and the three messages are echoed. *)
Theorem process_well_formed
    (str : node → string)
    (os_system : string → gmap string string → Z * gmap string string)
    (text_file : bool) (source : list string) (name : string)
    (recs : list (string * list string)) (w : world) :
  NoDup (fst <$> recs) →
  Forall (λ r, fst r ≠ "") recs →
  cp_contract os_system name →
  (∀ fs, is_Some (fs !! name) →
         fst (os_system ("cp " +:+ name +:+ " " +:+ name +:+ ".backup") fs) = 0%Z) →
  is_Some (files w !! name) →
  diff_index_records (discover_scns source) (Marc.entries recs) ≠ [] →
  let unmatched := diff_index_records (discover_scns source) (Marc.entries recs) in
  let final := process str os_system text_file source name (Marc.document recs) w in
  fst final = Returned
  ∧ files (snd final) !! name
    = Some (scrub_double_newlines
              (str (Marc.document (filter (λ r, fst r ∉ unmatched) recs))))
  ∧ files (snd final) !! (name +:+ ".backup") = files w !! name
  ∧ files (snd final) !! unmatched_records_file (length unmatched) name
    = Some (collection_header
            +:+ concat_strings
                  (str <$> (Marc.record_of
                            <$> omap (Marc.first_with_key recs) unmatched))
            +:+ collection_footer)
  ∧ console (snd final)
    = console w
      ++ ["Found " +:+ pretty (length unmatched) +:+ " unmatched items to remove";
          "Created " +:+ unmatched_records_file (length unmatched) name
          +:+ " in current directory";
          "Filtered out " +:+ pretty (length unmatched)
          +:+ " unmatched records from " +:+ name].
Proof.
  intros Hnodup Hkeys Hcp Hsucc Hsource Hsome unmatched final.
  assert (Hsub : ∀ u, u ∈ unmatched → u ∈ fst <$> recs)
    by (intros u; apply unmatched_keys_of_records).
  assert (Hids : Forall (λ u, u ≠ "") unmatched).
  { apply Forall_forall. intros u (r & -> & Hr)%Hsub%list_elem_of_fmap.
    by apply (proj1 (Forall_forall _ _) Hkeys r). }
  set (w1 := echo ("Found " +:+ pretty (length unmatched)
                   +:+ " unmatched items to remove") w).
  set (file := unmatched_records_file (length unmatched) name).
  set (data := collection_header
               +:+ concat_strings
                     (str <$> (Marc.record_of
                               <$> omap (Marc.first_with_key recs) unmatched))
               +:+ collection_footer).
  set (w2 := echo ("Created " +:+ file +:+ " in current directory")
               (write_file file data w1)).
  assert (Hsave : save_unmatched_records str unmatched (Marc.document recs) name w1
                  = w2).
  { unfold save_unmatched_records.
    by rewrite (locate_unmatched_all_found _ _ _ Hids Hsub). }
  assert (Hw2name : files w2 !! name = files w !! name).
  { cbn. by rewrite lookup_insert_ne by apply unmatched_records_file_ne. }
  destruct (create_backup os_system (length recs) name w2) as [ok w3] eqn:Hbackup.
  assert (Hw3 : ok = true ∧ console w3 = console w2
                ∧ files w3 !! (name +:+ ".backup") = files w !! name
                ∧ ∀ path, path ≠ name +:+ ".backup" →
                          files w3 !! path = files w2 !! path).
  { unfold create_backup in Hbackup. specialize (Hcp (files w2)).
    specialize (Hsucc (files w2)). rewrite Hw2name in Hsucc.
    specialize (Hsucc Hsource).
    destruct (os_system _ (files w2)) as [status fs]. cbn in Hsucc. subst status.
    injection Hbackup as <- <-. destruct Hcp as [Hframe Hcopy]. cbn.
    split; [done|]. split; [done|]. split; [|done].
    by rewrite Hcopy, Hw2name. }
  destruct Hw3 as (-> & Hconsole3 & Hbackup3 & Hframe3).
  assert (Hremove : remove_unmatched str unmatched (Marc.document recs) name w3
    = (Ok true,
       write_file name
         (scrub_double_newlines
            (str (Marc.document (filter (λ r, fst r ∉ unmatched) recs)))) w3)).
  { unfold remove_unmatched.
    rewrite (decompose_unmatched_first_records _ _ _ Hids
               (NoDup_elements _) Hsub).
    by rewrite (remove_all_unique _ _ Hnodup). }
  assert (Hfinal : final
    = (Returned,
       echo ("Filtered out " +:+ pretty (length unmatched)
             +:+ " unmatched records from " +:+ name)
         (write_file name
            (scrub_double_newlines
               (str (Marc.document (filter (λ r, fst r ∉ unmatched) recs))))
            w3))).
  { subst final. unfold process.
    rewrite process_index, parse_marcxml_document. cbn [p_collection p_soup p_len].
    fold unmatched.
    rewrite bool_decide_eq_true_2 by (intros Hlen; by apply Hsome, nil_length_inv).
    fold w1. rewrite Hsave, Hbackup, Hremove. done. }
  rewrite Hfinal. cbn [fst snd echo write_file files console].
  split; [done|]. split; [by rewrite lookup_insert_eq|].
  split; [by rewrite lookup_insert_ne by apply backup_name_ne|].
  split.
  - rewrite lookup_insert_ne by (intros Heq; by apply (unmatched_records_file_ne
                                   (length unmatched) name)).
    rewrite Hframe3 by apply unmatched_records_file_ne_backup.
    cbn. by rewrite lookup_insert_eq.
  - rewrite Hconsole3. cbn. by rewrite <- !(assoc (++)).
Qed.

Lemma process_well_formed_witness :
  fst (process Demo.str (Demo.cp_works "data/records.xml") false
         Demo.index_source "data/records.xml"
         (Marc.document [("rec1", ["00000111"]); ("rec2", ["00000999"])])
         Demo.before)
  = Returned.
Proof.
  refine (proj1 (process_well_formed Demo.str
                   (Demo.cp_works "data/records.xml") false Demo.index_source
                   "data/records.xml"
                   [("rec1", ["00000111"]); ("rec2", ["00000999"])]
                   Demo.before _ _ _ _ _ _)).
  - by apply (bool_decide_unpack _).
  - by repeat constructor.
  - apply cp_works_contract.
  - intros fs [data Hdata]. unfold Demo.cp_works. by rewrite Hdata.
  - vm_compute. eauto.
  - vm_compute. discriminate.
Defined.


Lemma record_without_identifier_witness :
  "rec3" ∉ diff_index_records ["00000111"]
             (Marc.entries [("rec1", ["00000111"]); ("rec3", [])]).
Proof.
  apply record_without_identifier.
  - by apply (bool_decide_unpack _).
  - by right; left.
Defined.

(** X19. [save_unmatched_records] writes one file: the header, the
    records found for the ids, in the order of the ids, and the footer.
    The ids it does not find are warned about and left out of the file,
    but they count in its name. *)
Theorem save_unmatched_records_file
    (str : node → string) (ids : list string) (soup : node) (name : string)
    (w : world) :
  files (save_unmatched_records str ids soup name w)
  = <[unmatched_records_file (length ids) name :=
        collection_header
        +:+ concat_strings
              (str <$> omap (λ u, parent <$> find "marc:controlfield" []
                                               (Some u) soup) ids)
        +:+ collection_footer]> (files w)
  ∧ console (save_unmatched_records str ids soup name w)
    = console w
      ++ (skip_warning
          <$> filter (λ u, find "marc:controlfield" [] (Some u) soup = None) ids)
      ++ ["Created " +:+ unmatched_records_file (length ids) name
          +:+ " in current directory"].
Proof.
  unfold save_unmatched_records.
  destruct (locate_unmatched_spec ids soup w) as (Hrecords & Hconsole & Hfiles).
  destruct (locate_unmatched ids soup w) as [records w1]. cbn in *.
  rewrite Hrecords, Hconsole, Hfiles. split; [done|]. by rewrite (assoc (++)).
Qed.

Lemma decompose_unmatched_outcome ids soup w :
  match decompose_unmatched ids soup w with
  | (Ok _, w') => w' = w
  | (Raise e, w') => e = AttributeError ∧ w' = echo remove_warning w
  end.
Proof.
  revert soup. induction ids as [|u ids IH]; intros soup; [done|].
  cbn [decompose_unmatched]. destruct (find _ _ _ soup); [apply IH|done].
Qed.

(** X21. [remove_unmatched] either returns [True], having rewritten the
    source and no other file and echoed nothing, or raises an
    [AttributeError] after its message, and then no file is changed. *)
Theorem remove_unmatched_all_or_nothing
    (str : node → string) (ids : list string) (soup : node) (name : string)
    (w : world) :
  match remove_unmatched str ids soup name w with
  | (Ok done, w') =>
      done = true
      ∧ (∃ soup', files w' = <[name := scrub_double_newlines (str soup')]> (files w))
      ∧ console w' = console w
  | (Raise e, w') =>
      e = AttributeError
      ∧ files w' = files w
      ∧ console w' = console w ++ [remove_warning]
  end.
Proof.
  unfold remove_unmatched.
  pose proof (decompose_unmatched_outcome ids soup w) as H.
  destruct (decompose_unmatched ids soup w) as [[soup'|e] w'].
  - subst w'. cbn. eauto.
  - by destruct H as [-> ->].
Qed.

(** ** The index read from a text file *)

Lemma splitlines_cons c r :
  splitlines (String c r)
  = if is_line_break c then
      "" :: match r with
            | String c' r' =>
                if bool_decide (c = "013"%char) && bool_decide (c' = "010"%char)
                then splitlines r' else splitlines r
            | EmptyString => []
            end
    else
      match splitlines r with
      | [] => [String c ""]
      | line :: lines => String c line :: lines
      end.
Proof. reflexivity. Qed.

Lemma splitlines_line eol line rest :
  eol = newline ∨ eol = carriage_return_line_feed →
  no_line_break line = true →
  splitlines (line +:+ eol +:+ rest) = line :: splitlines rest.
Proof.
  intros Heol Hline. induction line as [|c line IH].
  - rewrite append_empty_l. destruct Heol as [-> | ->].
    + change (newline +:+ rest) with (String "010"%char rest).
      rewrite splitlines_cons. cbn. by destruct rest.
    + change (carriage_return_line_feed +:+ rest)
        with (String "013"%char (String "010"%char rest)).
      by rewrite splitlines_cons.
  - unfold no_line_break in *. cbn in Hline.
    apply andb_true_iff in Hline as [Hc Hline].
    rewrite append_cons, splitlines_cons.
    destruct (is_line_break c); [done|]. by rewrite (IH Hline).
Qed.

Lemma splitlines_join_lines eol lines :
  eol = newline ∨ eol = carriage_return_line_feed →
  Forall (λ line, no_line_break line = true) lines →
  splitlines (join_lines eol lines) = lines.
Proof.
  intros Heol. induction 1 as [|line lines Hline _ IH]; [done|].
  unfold join_lines in *. cbn [fmap list_fmap concat_strings].
  rewrite append_assoc, (splitlines_line _ _ _ Heol Hline). by rewrite IH.
Qed.

Lemma splitlines_no_line_break s :
  Forall (λ line, no_line_break line = true) (splitlines s).
Proof.
  assert (H : Forall (λ line, no_line_break line = true) (splitlines s)
              ∧ ∀ c, Forall (λ line, no_line_break line = true)
                       (splitlines (String c s))); [|tauto].
  induction s as [|c' s [IH1 IH2]].
  - split; [constructor|]. intros c. rewrite splitlines_cons.
    destruct (is_line_break c) eqn:Hc; repeat constructor.
    unfold no_line_break. cbn. by rewrite Hc.
  - split; [apply IH2|]. intros c. rewrite splitlines_cons.
    destruct (is_line_break c) eqn:Hc.
    + constructor; [done|]. by destruct (_ && _).
    + specialize (IH2 c'). destruct (splitlines (String c' s)) as [|line lines].
      * repeat constructor. unfold no_line_break. cbn. by rewrite Hc.
      * apply Forall_cons in IH2 as [Hline Hlines]. constructor; [|done].
        unfold no_line_break in *. cbn. by rewrite Hc.
Qed.

(** X26. Lines with no line boundary in them, each written with a line
    feed (or a carriage return and a line feed) after it, are read back
    by [splitlines] as they were, empty lines included. *)
Theorem splitlines_round_trip (eol : string) (lines : list string) :
  eol = newline ∨ eol = carriage_return_line_feed →
  Forall (λ line, no_line_break line = true) lines →
  splitlines (join_lines eol lines) = lines
  ∧ Forall (λ line, no_line_break line = true)
      (splitlines (join_lines eol lines)).
Proof.
  intros Heol Hlines. split; [by apply splitlines_join_lines|].
  apply splitlines_no_line_break.
Qed.

Lemma splitlines_round_trip_witness :
  splitlines (join_lines carriage_return_line_feed ["9780000012345"; ""; "cover"])
  = ["9780000012345"; ""; "cover"]
  ∧ Forall (λ line, no_line_break line = true)
      (splitlines
         (join_lines carriage_return_line_feed ["9780000012345"; ""; "cover"])).
Proof. apply splitlines_round_trip; [by right|by repeat constructor]. Defined.

Lemma discover_scns_identifier id :
  identifier_shape id → discover_scns [id] = [id].
Proof.
  intros (d & x & -> & Hd & Hlen & Hx).
  rewrite discover_scns_head by (done || destruct Hx as [-> | ->]; by right).
  by destruct Hx as [-> | ->].
Qed.

Lemma discover_scns_identifiers_id ids :
  Forall identifier_shape ids → discover_scns ids = ids.
Proof.
  induction 1 as [|id ids Hid _ IH]; [done|].
  change (id :: ids) with ([id] ++ ids) at 1.
  by rewrite discover_scns_app, (discover_scns_identifier _ Hid), IH.
Qed.

Lemma identifier_shape_example : identifier_shape "9780000012345".
Proof. exists "9780000012345", "". repeat split; [cbn; lia..|by left]. Qed.

Lemma identifier_shape_example_X : identifier_shape "123456789X".
Proof. exists "123456789", "X". repeat split; [cbn; lia..|by right]. Qed.

(** The greedy run of digits stops inside a string that ends in a
    slash, whatever follows the slash. *)
Lemma digits_upto_before_slash n x :
  ∃ d c r, digits_upto n (x +:+ "/") = (d, String c r)
           ∧ ∀ t, digits_upto n (x +:+ "/" +:+ t) = (d, String c r +:+ t).
Proof.
  revert n. induction x as [|c x IH]; intros n.
  - exists "", "/"%char, "". by destruct n.
  - destruct n as [|n].
    + exists "", c, (x +:+ "/"). split; [reflexivity|]. intros t.
      by rewrite !append_cons, append_assoc.
    + rewrite append_cons. cbn [digits_upto]. destruct (is_digit c) eqn:Hc.
      * destruct (IH n) as (d & c' & r & Hd & Ht). exists (String c d), c', r.
        rewrite Hd. split; [done|]. intros t. rewrite append_cons.
        cbn [digits_upto]. by rewrite Hc, Ht.
      * exists "", c, (x +:+ "/"). split; [reflexivity|]. intros t.
        rewrite !append_cons. cbn [digits_upto]. rewrite Hc.
        by rewrite append_assoc.
Qed.

Lemma match_groups_before_slash x t :
  group1 <$> match_groups (x +:+ "/" +:+ t) = group1 <$> match_groups (x +:+ "/").
Proof.
  unfold match_groups.
  destruct (digits_upto_before_slash 16 x) as (d & c & r & Hd & Ht).
  rewrite Hd, Ht. destruct (8 <=? String.length d)%nat; [|done].
  rewrite append_cons. unfold opt_X.
  destruct (decide (c = "X"%char)) as [->|Hc]; [done|].
  by destruct c as [[] [] [] [] [] [] [] []].
Qed.

Lemma match_here_before_slash x t :
  group1 <$> match_here (x +:+ "/" +:+ t) = group1 <$> match_here (x +:+ "/").
Proof.
  destruct x as [|c x]; [done|].
  pose proof (match_groups_before_slash (String c x) t) as Hs.
  pose proof (match_groups_before_slash x t) as Hx.
  rewrite !(append_cons c) in *.
  set (s1 := x +:+ "/" +:+ t) in *. set (s2 := x +:+ "/") in *.
  clearbody s1 s2. cbn [match_here]. destruct (is_sep c); [|done].
  destruct (match_groups s1), (match_groups s2); cbn in *; congruence.
Qed.

(** What a name yields when a directory and a slash stand before it. *)
Lemma re_search_below_directory directory t :
  group1 <$> re_search (directory +:+ "/" +:+ t)
  = match re_search (directory +:+ "/") with
    | Some m => Some (group1 m)
    | None => group1 <$> re_search t
    end.
Proof.
  induction directory as [|c directory IH].
  - rewrite !append_empty_l. change ("/" +:+ t) with (String "/"%char t).
    by rewrite re_search_nondigit.
  - pose proof (match_here_before_slash (String c directory) t) as Hh.
    rewrite !(append_cons c) in *. rewrite !re_search_cons.
    set (s1 := directory +:+ "/" +:+ t) in *.
    set (s2 := directory +:+ "/") in *. clearbody s1 s2.
    destruct (match_here (String c s1)), (match_here (String c s2));
      cbn in *; congruence.
Qed.

Lemma discover_scns_below_directory directory t :
  discover_scns [directory +:+ "/" +:+ t]
  = match discover_scns [directory +:+ "/"] with
    | [] => discover_scns [t]
    | id :: _ => [id]
    end.
Proof.
  unfold discover_scns. cbn [omap list_omap].
  pose proof (re_search_below_directory directory t) as H.
  set (s1 := directory +:+ "/" +:+ t) in *.
  set (s2 := directory +:+ "/") in *. clearbody s1 s2.
  destruct (re_search s1), (re_search s2), (re_search t); cbn in *; congruence.
Qed.

Lemma discover_scns_identifier_epub id :
  identifier_shape id → discover_scns [id +:+ ".epub"] = [id].
Proof.
  intros (d & x & -> & Hd & Hlen & Hx). rewrite append_assoc.
  rewrite discover_scns_head by (done || destruct Hx as [-> | ->]; by right).
  by destruct Hx as [-> | ->].
Qed.

Lemma filenames_below_directory directory ids :
  Forall identifier_shape ids →
  discover_scns ((λ id, directory +:+ "/" +:+ id +:+ ".epub") <$> ids)
  = match discover_scns [directory +:+ "/"] with
    | [] => ids
    | id :: _ => (λ _, id) <$> ids
    end.
Proof.
  induction 1 as [|id ids Hid _ IH].
  - by destruct (discover_scns [_]).
  - rewrite fmap_cons.
    change (?x :: ?l) with ([x] ++ l) at 1.
    rewrite discover_scns_app, IH, discover_scns_below_directory.
    rewrite (discover_scns_identifier_epub _ Hid).
    by destruct (discover_scns [directory +:+ "/"]).
Qed.

(** X27. Of the names [glob] returns for a directory, [directory/id.epub]
    with each [id] an identifier (eight to sixteen digits, possibly an
    [X] after them), [filenames_to_index] returns these identifiers, in
    their order, when the name of the directory with its slash holds no
    eight digits in a row; when it holds some, every name yields the
    identifier found in the name of the directory instead.  Lines that
    are identifiers already are their own index. *)
Theorem index_of_identifiers (directory : string) (ids : list string) :
  Forall identifier_shape ids →
  filenames_to_index ((λ id, directory +:+ "/" +:+ id +:+ ".epub") <$> ids)
  = match discover_scns [directory +:+ "/"] with
    | [] => ids
    | id :: _ => (λ _, id) <$> ids
    end
  ∧ plaintext_to_index ids = ids.
Proof.
  intros Hids. split; [by apply filenames_below_directory|].
  by apply discover_scns_identifiers_id.
Qed.

Lemma index_of_identifiers_witness :
  filenames_to_index
    ((λ id, "books_2019" +:+ "/" +:+ id +:+ ".epub")
     <$> ["9780000012345"; "123456789X"])
  = ["9780000012345"; "123456789X"]
  ∧ plaintext_to_index ["9780000012345"; "123456789X"]
    = ["9780000012345"; "123456789X"].
Proof.
  apply (index_of_identifiers "books_2019"). repeat constructor.
  - apply identifier_shape_example.
  - apply identifier_shape_example_X.
Defined.

Lemma digit_no_line_break c : is_digit c = true → is_line_break c = false.
Proof. destruct c as [[] [] [] [] [] [] [] []]; by vm_compute. Qed.

Lemma identifier_no_line_break id :
  identifier_shape id → no_line_break id = true.
Proof.
  intros (d & x & -> & Hd & _ & Hx). unfold no_line_break.
  rewrite all_chars_append. apply andb_true_iff. split.
  - clear -Hd. induction d as [|c d IH]; [done|]. cbn in *.
    apply andb_true_iff in Hd as [Hc Hd]. by rewrite (digit_no_line_break _ Hc), IH.
  - by destruct Hx as [-> | ->].
Qed.

(** X28. The index of a text file that lists identifiers one per line is
    the list of these identifiers. *)
Theorem plaintext_index_of_listed_identifiers (eol : string) (ids : list string) :
  eol = newline ∨ eol = carriage_return_line_feed →
  Forall identifier_shape ids →
  plaintext_to_index (splitlines (join_lines eol ids)) = ids.
Proof.
  intros Heol Hids. rewrite splitlines_join_lines; [|done|].
  - by apply discover_scns_identifiers_id.
  - eapply Forall_impl; [done|]. apply identifier_no_line_break.
Qed.

Lemma plaintext_index_of_listed_identifiers_witness :
  plaintext_to_index
    (splitlines (join_lines newline ["9780000012345"; "123456789X"]))
  = ["9780000012345"; "123456789X"].
Proof.
  apply plaintext_index_of_listed_identifiers; [by left|].
  repeat constructor.
  - apply identifier_shape_example.
  - apply identifier_shape_example_X.
Defined.

(** ** Records without identifier fields *)

Lemma node_nested_ind (P : node → Prop) :
  (∀ nm a cs, Forall P cs → P (Tag nm a cs)) →
  (∀ s, P (NavigableString s)) →
  (∀ s, P (Comment s)) →
  (∀ s, P (ProcessingInstruction s)) →
  ∀ n, P n.
Proof.
  intros HT HN HC HP. fix IH 1. intros [nm a cs|s|s|s]; [|apply HN|apply HC|apply HP].
  apply HT. induction cs as [|c cs IHcs]; constructor; [apply IH|apply IHcs].
Qed.

(** An element a search returns is among the contents of its parent. *)
Lemma descendants_parent n e :
  e ∈ descendants n → elem e ∈ contents (parent e).
Proof.
  revert e. induction n as [nm a cs IH|s|s|s] using node_nested_ind;
    intros e; try (by intros ?%elem_of_nil).
  rewrite descendants_Tag.
  assert (Hsub : ∀ c, c ∈ cs → c ∈ contents (Tag nm a cs)) by done.
  revert Hsub. generalize (Tag nm a cs) at 1 2 as par. intros par.
  generalize 0%nat as i.
  induction IH as [|c l Hc _ IHl]; intros i Hsub; [by intros ?%elem_of_nil|].
  cbn [children_from].
  rewrite elem_of_cons, elem_of_app. intros [->|[He|He]].
  - cbn. apply Hsub. by left.
  - apply list_elem_of_fmap in He as (e' & -> & He'). cbn. by apply Hc.
  - apply (IHl (S i)); [|done]. intros c' Hc'. apply Hsub. by right.
Qed.

Lemma find_all_parent name n e :
  e ∈ find_all name n → elem e ∈ contents (parent e).
Proof. intros [_ He]%list_elem_of_filter. by apply (descendants_parent n). Qed.

Lemma scn_entry_qualifying tag k v :
  matches "marc:datafield" [] None (elem tag) = true →
  scn_entry tag = Ok (Some (k, v)) →
  qualifying (elem tag) ∧ control_number (parent tag) = Some k
  ∧ v = text (elem tag).
Proof.
  intros Hdatafield. unfold scn_entry, qualifying, control_number, getitem, deref.
  destruct (attrs (elem tag) !! "tag") as [t|] eqn:Ht; cbn; [|done].
  case_bool_decide as H028; [subst t|done].
  destruct (find "marc:subfield" [] None (elem tag)) as [sub|] eqn:Hsub; cbn;
    [|done].
  destruct (attrs (elem sub) !! "code") as [code|] eqn:Hcode; cbn; [|done].
  case_bool_decide as Ha; [subst code|done].
  destruct (find "marc:controlfield" [("tag", "001")] None (parent tag)) as [cf|];
    cbn; [|done].
  intros [= <- <-]. eauto 10.
Qed.

(** Every entry of the collection is read from a qualifying datafield,
    under the control number of its parent. *)
Lemma parse_marcxml_entry marcxml_soup p k v :
  parse_marcxml marcxml_soup = Ok p → (k, v) ∈ p_collection p →
  ∃ tag, tag ∈ find_all "marc:datafield" (p_soup p)
         ∧ qualifying (elem tag)
         ∧ control_number (parent tag) = Some k
         ∧ v = text (elem tag).
Proof.
  intros Hp Hkv.
  destruct (parse_marcxml_collection _ _ _ Hp Hkv) as (tag & Htag & Hentry).
  exists tag. split; [done|]. apply scn_entry_qualifying; [|done].
  by apply list_elem_of_filter in Htag as [? _].
Qed.

(** A key the matcher classifies is the control number of the parent of
    a qualifying datafield. *)
Lemma classified_key index marcxml_soup p k :
  parse_marcxml marcxml_soup = Ok p →
  k ∈ diff_index_records index (p_collection p)
  ∨ k ∈ matching_whitelist_uniq index (p_collection p) →
  ∃ tag, tag ∈ find_all "marc:datafield" (p_soup p)
         ∧ qualifying (elem tag)
         ∧ control_number (parent tag) = Some k.
Proof.
  intros Hp Hk.
  assert (Hkey : k ∈ collection_keys (p_collection p)).
  { destruct Hk as [[Hk _]%elem_of_diff_index_records|Hk]; [done|].
    unfold matching_whitelist_uniq in Hk. rewrite elem_of_dict_fromkeys in Hk.
    by apply (matching_record_ids_keys index). }
  apply elem_of_collection_keys in Hkey as [v Hv].
  destruct (parse_marcxml_entry _ _ _ _ Hp Hv) as (tag & ? & ? & ? & _). eauto.
Qed.

Lemma record_of_inj r r' : Marc.record_of r = Marc.record_of r' → r = r'.
Proof.
  destruct r as [k ids], r' as [k' ids']. unfold Marc.record_of, Marc.record.
  cbn. intros [= Hk Hids]. f_equal; [done|].
  revert ids' Hids. induction ids as [|v ids IH]; intros [|v' ids']; try done.
  cbn. intros [= -> ?]. f_equal. auto.
Qed.

Lemma not_qualifying_controlfield tag key : ¬ qualifying (Marc.controlfield tag key).
Proof. by intros [[=] _]. Qed.



(** ** A second run on the file of unmatched records *)

(** The records found for ids that are control numbers of the document,
    these being distinct, have these ids for control numbers, in the
    order of the ids. *)
Lemma first_with_key_keys (recs : list (string * list string)) (ids : list string) :
  (∀ u, u ∈ ids → u ∈ fst <$> recs) →
  fst <$> omap (Marc.first_with_key recs) ids = ids.
Proof.
  induction ids as [|u ids IH]; intros Hsub; [done|].
  cbn [omap list_omap].
  destruct (first_with_key_is_Some recs u) as [r Hr]; [apply Hsub; by left|].
  rewrite Hr. cbn. destruct (first_with_key_Some _ _ _ Hr) as [_ ->].
  rewrite IH; [done|]. intros u' Hu'. apply Hsub. by right.
Qed.

Lemma process_not_exit str os_system text_file source name marcxml_soup w p :
  parse_marcxml marcxml_soup = Ok p →
  diff_index_records (discover_scns source) (p_collection p) ≠ [] →
  fst (process str os_system text_file source name marcxml_soup w) ≠ Exit 0.
Proof.
  intros Hp Hsome. unfold process. rewrite process_index, Hp.
  rewrite bool_decide_eq_true_2 by (intros Hlen; by apply Hsome, nil_length_inv).
  destruct (create_backup _ _ _ _) as [[] w3]; [|done].
  by destruct (remove_unmatched _ _ _ _ _) as [[[]|e] w4].
Qed.



(** ** The backup *)

(** [process] asks [os.system] for one command in one state of the
    files: two that agree there give the same run. *)
Lemma process_os_system str os1 os2 text_file source name marcxml_soup w p :
  parse_marcxml marcxml_soup = Ok p →
  let unmatched := diff_index_records (discover_scns source) (p_collection p) in
  let w1 :=
    echo ("Found " +:+ pretty (length unmatched) +:+ " unmatched items to remove") w in
  let w2 := save_unmatched_records str unmatched (p_soup p) name w1 in
  os1 ("cp " +:+ name +:+ " " +:+ name +:+ ".backup") (files w2)
  = os2 ("cp " +:+ name +:+ " " +:+ name +:+ ".backup") (files w2) →
  process str os1 text_file source name marcxml_soup w
  = process str os2 text_file source name marcxml_soup w.
Proof.
  intros Hp unmatched w1 w2 Hagree. unfold process.
  rewrite process_index, Hp. fold unmatched. case_bool_decide; [|done].
  fold w1. fold w2. unfold create_backup. by rewrite Hagree.
Qed.

Lemma sh_pattern_name :
  sh ("cp " +:+ pattern_name +:+ " " +:+ pattern_name +:+ ".backup") (files beside)
  = Some (0%Z, <["data/export[1].xml.backup" := "<collection>export1</collection>"]>
                 (files beside)).
Proof. vm_compute. reflexivity. Qed.

(** C2. [create_backup] reports success on the exit status of the
    command alone, and the name of the source stands unquoted in the
    command.  For the source [data/export[1].xml] beside the file
    [data/export1.xml], the shell reads the name as a pattern, [cp]
    copies [data/export1.xml] and exits with status 0: the run goes on,
    rewrites the source and reports the removal, while the backup holds
    the bytes of the other file and no file holds what the source held
    before the run. *)
Theorem process_backup_not_checked
    (os_system : string → gmap string string → Z * gmap string string) :
  (∀ command fs r, sh command fs = Some r → os_system command fs = r) →
  let final :=
    process Demo.str os_system false Demo.index_source pattern_name
      Demo.two_records beside in
  fst final = Returned
  ∧ console (snd final)
    = ["Found 1 unmatched items to remove";
       "Created data/1_unmatchable_export[1].xml in current directory";
       "Filtered out 1 unmatched records from data/export[1].xml"]
  ∧ files beside !! pattern_name = Some "<collection>export[1]</collection>"
  ∧ files (snd final) !! pattern_name
    = Some (scrub_double_newlines (Demo.str Demo.one_matched))
  ∧ files (snd final) !! (pattern_name +:+ ".backup")
    = Some "<collection>export1</collection>"
  ∧ map_Forall (λ _ data, data ≠ "<collection>export[1]</collection>")
      (files (snd final)).
Proof.
  intros Hsh final.
  assert (Hfinal : final
    = process Demo.str sh_system false Demo.index_source pattern_name
        Demo.two_records beside).
  { apply (process_os_system _ _ _ _ _ _ _ _
             (Parsed 2 [("rec1", "00000111"); ("rec2", "00000999")]
                Demo.two_records)); [vm_compute; reflexivity|].
    unfold sh_system.
    match goal with
    | |- _ = default _ ?o =>
        assert (Hsome : is_Some o)
          by (apply (bool_decide_unpack _); vm_compute; reflexivity);
        destruct Hsome as [r Hr]; rewrite Hr; by apply Hsh
    end. }
  rewrite Hfinal. clear.
  split; [vm_compute; reflexivity|]. split; [vm_compute; reflexivity|].
  split; [vm_compute; reflexivity|]. split; [vm_compute; reflexivity|].
  split; [vm_compute; reflexivity|].
  apply (bool_decide_unpack _). vm_compute. reflexivity.
Qed.

Lemma process_backup_not_checked_witness :
  fst (process Demo.str sh_system false Demo.index_source pattern_name
         Demo.two_records beside)
  = Returned
  ∧ files (snd (process Demo.str sh_system false Demo.index_source pattern_name
                  Demo.two_records beside))
      !! (pattern_name +:+ ".backup")
    = Some "<collection>export1</collection>".
Proof.
  destruct (process_backup_not_checked sh_system)
    as (Hreturned & _ & _ & _ & Hbackup & _).
  - intros command fs r Hr. unfold sh_system. by rewrite Hr.
  - by split.
Defined.
